(** * TensrNEXT: the tensor metadata / view layer

    A shallow embedding of [Utils/NextUtils.hpp] (namespace [NextUtils]),
    [Core/TensorMetadata.hpp] (namespace [NextMetadata]) and the header
    of namespace [NextShapeUtils], and the properties of the stride
    arithmetic, the index mapping and the view transformations.

    Conventions of the embedding.
    - [size_t] is the 64-bit unsigned type of an LP64 platform: a value is
      an [N] below [2^64], and [*], [+], [-] wrap around modulo [2^64].
    - [std::vector<size_t>] and [std::array<size_t,N>] are [list N]; the
      size of a vector is its length, read back exactly (a vector cannot
      hold [2^64] elements).
    - The [int] loop counters of [ComputeStrides] count down from
      [N - 2]; ranks are far below [2^31], so the counter is modelled by a
      natural number of remaining iterations.
    - A function that can throw, or that indexes a vector with
      [operator[]] at a position the code does not itself keep in range,
      returns a [result]: [Ok], [Throw] of the C++ exception, or
      [Undefined] for an out-of-bounds access or a division by zero.
    - The one [while] loop ([NextReverse]) runs on fuel; [OutOfFuel] is
      the outcome of a run that is cut short, and [NextReverse_fuel]
      shows that the fuel given always suffices. *)

From Stdlib Require Import NArith List Lia String.
From stdpp Require Import base numbers list.

Local Open Scope N_scope.

(** ** Machine arithmetic on [size_t] *)

Definition SIZE_MODULUS : N := 2 ^ 64.

Definition wrap (x : N) : N := x mod SIZE_MODULUS.

Definition size_mul (a b : N) : N := wrap (a * b).
Definition size_add (a b : N) : N := wrap (a + b).
(** [a - b] on operands below the modulus. *)
Definition size_sub (a b : N) : N := wrap (a + SIZE_MODULUS - b).

(** The mathematical product of a shape, used only in statements. *)
Definition product (shape : list N) : N := fold_right N.mul 1 shape.

(** ** Outcomes of a call *)

Inductive exn : Type :=
| invalid_argument (what : string)
| out_of_range (what : string).

Inductive result (A : Type) : Type :=
| Ok (a : A)
| Throw (e : exn)
| Undefined
| OutOfFuel.

Arguments Ok {A} a.
Arguments Throw {A} e.
Arguments Undefined {A}.
Arguments OutOfFuel {A}.

#[global] Instance result_ret : MRet result := fun _ a => Ok a.

#[global] Instance result_bind : MBind result := fun _ _ k r =>
  match r with
  | Ok a => k a
  | Throw e => Throw e
  | Undefined => Undefined
  | OutOfFuel => OutOfFuel
  end.

#[global] Instance result_fmap : FMap result := fun _ _ f r =>
  match r with
  | Ok a => Ok (f a)
  | Throw e => Throw e
  | Undefined => Undefined
  | OutOfFuel => OutOfFuel
  end.

(** [vec[i]] read through [operator[]]: outside the vector the behaviour
    is undefined. *)
Definition vec_get (vec : list N) (i : N) : result N :=
  match vec !! N.to_nat i with
  | Some x => Ok x
  | None => Undefined
  end.

(** [vec[i] = x]. *)
Definition vec_set (vec : list N) (i : N) (x : N) : result (list N) :=
  if decide (N.to_nat i < length vec)%nat
  then Ok (<[N.to_nat i := x]> vec)
  else Undefined.

(** [for (x : xs) body], threading the mutable state [s]. *)
Fixpoint for_each {A S : Type} (xs : list A) (body : A -> S -> result S)
    (s : S) : result S :=
  match xs with
  | [] => Ok s
  | x :: xs' => s' ← body x s; for_each xs' body s'
  end.

(** [for (size_t i = 0; i < n; ++i)]. *)
Definition for_range {S : Type} (n : nat) (body : N -> S -> result S)
    (s : S) : result S :=
  for_each (map N.of_nat (seq 0 n)) body s.

(** ** NextUtils *)

Module NextUtils.

(** The loop of [ComputeStrides], with [k = i + 1] iterations left:
    [strides[i] = strides[i + 1] * shape[i + 1]] for [i = k - 1 .. 0].
    Both indices are inside the vectors on every path from
    [ComputeStrides]. *)
Fixpoint ComputeStrides_loop (shape strides : list N) (k : nat) : list N :=
  match k with
  | O => strides
  | S i =>
      ComputeStrides_loop shape
        (<[i := size_mul (strides !!! S i) (shape !!! S i)]> strides) i
  end.

(** Runtime version: [strides(N, 1)], then the loop from [N - 2]. *)
Definition ComputeStrides (shape : list N) : list N :=
  let n := length shape in
  ComputeStrides_loop shape (replicate n 1) (n - 1).

(** Constexpr version over [std::array<size_t, N>]: [strides{}] is
    zero-initialised, [strides[N - 1] = 1] under [if constexpr (N > 0)]. *)
Definition ComputeStrides_static (n : nat) (shape : list N) : list N :=
  let strides := replicate n 0 in
  match n with
  | O => strides
  | S n' => ComputeStrides_loop shape (<[n' := 1]> strides) n'
  end.

(** Runtime version: [size = 1; for (dim : shape) size *= dim]. *)
Definition ComputeSize (shape : list N) : N :=
  fold_left size_mul shape 1.

(** Constexpr version: the same loop under [if constexpr (N > 0)]. *)
Definition ComputeSize_static (n : nat) (shape : list N) : N :=
  match n with
  | O => 1
  | S _ => fold_left size_mul shape 1
  end.

(** The body of the loop of [FlattenIndex]:
    [FlatIndex += indices[i] * strides[i]]; [indices] is read unchecked. *)
Definition FlattenIndex_step (strides indices : list N) (i : N)
    (FlatIndex : N) : result N :=
  x ← vec_get indices i;
  s ← vec_get strides i;
  mret (size_add FlatIndex (size_mul x s)).

(** Runtime [FlattenIndex]: the loop runs over [i] below
    [strides.size()], from [FlatIndex = 0]. *)
Definition FlattenIndex (strides indices : list N) : result N :=
  for_range (length strides) (FlattenIndex_step strides indices) 0.

(** [a / b] and [a % b]; dividing by zero is undefined. *)
Definition size_div (a b : N) : result N :=
  if decide (b = 0) then Undefined else Ok (a / b).
Definition size_rem (a b : N) : result N :=
  if decide (b = 0) then Undefined else Ok (a mod b).

(** The body of the loop of [UnflattenIndex]:
    [indices[i] = flatIndex / strides[i]; flatIndex %= strides[i]]. *)
Definition UnflattenIndex_step (strides : list N) (i : N)
    (st : list N * N) : result (list N * N) :=
  let '(indices, flatIndex) := st in
  s ← vec_get strides i;
  q ← size_div flatIndex s;
  indices' ← vec_set indices i q;
  r ← size_rem flatIndex s;
  mret (indices', r).

(** Runtime [UnflattenIndex]: [indices(N)] starts zero-filled. *)
Definition UnflattenIndex (strides : list N) (flatIndex : N)
    : result (list N) :=
  st ← for_range (length strides) (UnflattenIndex_step strides)
          (replicate (length strides) 0, flatIndex);
  mret (fst st).

(** The [while (left < right)] loop of [NextReverse]:
    [std::swap(vec[left], vec[right]); ++left; --right]. *)
Fixpoint NextReverse_loop (fuel : nat) (vec : list N) (left right : N)
    : result (list N) :=
  if left <? right then
    match fuel with
    | O => OutOfFuel
    | S fuel' =>
        a ← vec_get vec left;
        b ← vec_get vec right;
        vec1 ← vec_set vec left b;
        vec2 ← vec_set vec1 right a;
        NextReverse_loop fuel' vec2 (size_add left 1) (size_sub right 1)
    end
  else Ok vec.

(** [left = 0; right = vec.size() - 1], the subtraction in [size_t]. *)
Definition NextReverse (vec : list N) : result (list N) :=
  NextReverse_loop (S (length vec)) vec 0
    (size_sub (N.of_nat (length vec)) 1).

(** Constexpr [FlattenIndex] over [std::array<size_t, N>]: [return 0]
    under [if constexpr (N == 0)], otherwise the same loop over [i < N]. *)
Definition FlattenIndex_static (n : nat) (strides indices : list N)
    : result N :=
  match n with
  | O => Ok 0
  | S _ => for_range n (FlattenIndex_step strides indices) 0
  end.

(** Constexpr [UnflattenIndex]: [indices{}] is zero-initialised and the
    loop runs under [if constexpr (N > 0)]. *)
Definition UnflattenIndex_static (n : nat) (strides : list N)
    (flatIndex : N) : result (list N) :=
  match n with
  | O => Ok (replicate n 0)
  | S _ =>
      st ← for_range n (UnflattenIndex_step strides)
              (replicate n 0, flatIndex);
      mret (fst st)
  end.

End NextUtils.

(** ** NextMetadata *)

Module NextMetadata.

Record TensorMetadata : Type := {
  shape_ : list N;
  strides_ : list N;
  offset_ : N;
  totalSize_ : N;
  rank_ : N;
  isContiguous_ : bool
}.

(** [TensorMetadata(shape, offset)]. *)
Definition TensorMetadata_of_shape (shape : list N) (offset : N)
    : TensorMetadata :=
  {| shape_ := shape;
     strides_ := NextUtils.ComputeStrides shape;
     offset_ := offset;
     totalSize_ := NextUtils.ComputeSize shape;
     rank_ := N.of_nat (length shape);
     isContiguous_ := true |}.

(** [TensorMetadata(shape, stride, offset)]. *)
Definition TensorMetadata_of_strides (shape stride : list N) (offset : N)
    : TensorMetadata :=
  {| shape_ := shape;
     strides_ := stride;
     offset_ := offset;
     totalSize_ := NextUtils.ComputeSize shape;
     rank_ := N.of_nat (length shape);
     isContiguous_ := true |}.

Definition GetShape (m : TensorMetadata) : list N := shape_ m.
Definition GetStrides (m : TensorMetadata) : list N := strides_ m.
Definition GetOffset (m : TensorMetadata) : N := offset_ m.
Definition GetTotalSize (m : TensorMetadata) : N := totalSize_ m.
Definition GetRank (m : TensorMetadata) : N := rank_ m.
Definition IsContiguous (m : TensorMetadata) : bool := isContiguous_ m.


End NextMetadata.

(** ** NextShapeUtils *)

Module NextShapeUtils.
Import NextMetadata.

(** The body of the loop of [NextSlice]: the bounds check, then
    [newShape.push_back(end - start)] and
    [newStrides.push_back(strides[i])]. *)
Definition NextSlice_step (Metadata : TensorMetadata)
    (startIndices endIndices : list N) (i : N) (st : list N * list N)
    : result (list N * list N) :=
  let '(newShape, newStrides) := st in
  s ← vec_get startIndices i;
  e ← vec_get endIndices i;
  d ← vec_get (GetShape Metadata) i;
  if (e <=? s)%N || (d <=? s)%N || (d <? e)%N
  then Throw (out_of_range "Start or end indices are out of bounds."%string)
  else
    w ← vec_get (GetStrides Metadata) i;
    mret (newShape ++ [size_sub e s], newStrides ++ [w]).

(** [newStrides] is filled by the loop, but the metadata is built by the
    constructor that takes the shape and the offset only. *)
Definition NextSlice (Metadata : TensorMetadata)
    (startIndices endIndices : list N) : result TensorMetadata :=
  if decide (length startIndices ≠ length (GetShape Metadata)
             ∨ length endIndices ≠ length (GetShape Metadata))
  then Throw (invalid_argument
                "Start and end indices must match the tensor's rank."%string)
  else
    st ← for_range (length (GetShape Metadata))
          (NextSlice_step Metadata startIndices endIndices) ([], []);
    mret (TensorMetadata_of_shape (fst st) (GetOffset Metadata)).

Definition NextReshape (Metadata : TensorMetadata) (newShape : list N)
    : result TensorMetadata :=
  let oldSize := GetTotalSize Metadata in
  let newSize := fold_left size_mul newShape 1%N in
  if decide (oldSize ≠ newSize)
  then Throw (invalid_argument
    "New shape must have the same total size as the original tensor."%string)
  else
    let newStrides := NextUtils.ComputeStrides newShape in
    Ok (TensorMetadata_of_shape newShape (GetOffset Metadata)).

(** The body of the custom-permutation loop of [NextPermute]:
    [newShape[i] = originalShape[newIndex];
     newStrides[i] = originalStrides[newIndex]] with
    [newIndex = permutation[i]], which the code does not validate. *)
Definition NextPermute_step (originalShape originalStrides permutation : list N)
    (i : N) (st : list N * list N) : result (list N * list N) :=
  let '(newShape, newStrides) := st in
  newIndex ← vec_get permutation i;
  x ← vec_get originalShape newIndex;
  newShape' ← vec_set newShape i x;
  y ← vec_get originalStrides newIndex;
  newStrides' ← vec_set newStrides i y;
  mret (newShape', newStrides').

Definition NextPermute (Metadata : TensorMetadata) (permutation : list N)
    : result TensorMetadata :=
  let originalShape := GetShape Metadata in
  let originalStrides := GetStrides Metadata in
  match permutation with
  | [] =>
      newShape ← NextUtils.NextReverse originalShape;
      newStrides ← NextUtils.NextReverse originalStrides;
      mret (TensorMetadata_of_strides newShape newStrides
              (GetOffset Metadata))
  | _ :: _ =>
      if decide (length permutation ≠ length originalShape)
      then Throw (invalid_argument
        "Permutation vector must have the same number of elements as the tensor's rank."%string)
      else
        st ← for_range (length permutation)
          (NextPermute_step originalShape originalStrides permutation)
          (replicate (length originalShape) 0%N,
           replicate (length originalStrides) 0%N);
        mret (TensorMetadata_of_strides (fst st) (snd st)
                (GetOffset Metadata))
  end.

Definition NextTranspose (Metadata : TensorMetadata)
    : result TensorMetadata :=
  NextPermute Metadata [].

Definition NextSqueeze (Metadata : TensorMetadata) (axes : list N)
    : result TensorMetadata :=
  match axes with
  | _ :: _ =>
      newShape ← for_each axes
        (fun axis (newShape : list N) =>
           if (GetRank Metadata <=? axis)%N
           then Throw (invalid_argument "Axis out of bounds."%string)
           else
             d ← vec_get (GetShape Metadata) axis;
             if decide (d ≠ 1%N)
             then Throw (invalid_argument
                           "Cannot squeeze axis that is not of size 1."%string)
             else
               for_range (N.to_nat (GetRank Metadata))
                 (fun i (newShape : list N) =>
                    if decide (i = axis) then Ok newShape
                    else
                      x ← vec_get (GetShape Metadata) i;
                      mret (newShape ++ [x]))
                 newShape)
        [];
      mret (TensorMetadata_of_shape newShape (GetOffset Metadata))
  | [] =>
      newShape ← for_range (N.to_nat (GetRank Metadata))
        (fun i (newShape : list N) =>
           d ← vec_get (GetShape Metadata) i;
           if decide (d = 1%N) then Ok newShape
           else
             x ← vec_get (GetShape Metadata) i;
             mret (newShape ++ [x]))
        [];
      mret (TensorMetadata_of_shape newShape (GetOffset Metadata))
  end.

(** [newShape.insert(newShape.begin() + axis, 1)]. *)
Definition vec_insert (vec : list N) (pos : N) (x : N) : list N :=
  take (N.to_nat pos) vec ++ x :: drop (N.to_nat pos) vec.

Definition NextUnsqueeze (Metadata : TensorMetadata) (axes : list N)
    : result TensorMetadata :=
  let newStrides := GetStrides Metadata in
  newShape ← for_each axes
    (fun axis (newShape : list N) =>
       if (N.of_nat (length newShape) <? axis)%N
       then Throw (invalid_argument "Axis out of bounds."%string)
       else Ok (vec_insert newShape axis 1%N))
    (GetShape Metadata);
  mret (TensorMetadata_of_shape newShape (GetOffset Metadata)).

End NextShapeUtils.

Import NextUtils NextMetadata NextShapeUtils.

(** ** Vocabulary of the statements *)

(** The invariants of the data model: the two constructors establish the
    rank and the total size; the lengths agree for every metadata the
    library itself builds; a vector's size fits [size_t]. *)
Record well_formed (m : TensorMetadata) : Prop := {
  wf_strides : length (GetStrides m) = length (GetShape m);
  wf_rank : GetRank m = N.of_nat (length (GetShape m));
  wf_totalSize : GetTotalSize m = ComputeSize (GetShape m);
  wf_bound : N.of_nat (length (GetShape m)) < SIZE_MODULUS
}.

(** [p] lists each of [0 .. r-1] exactly once. *)
Definition valid_permutation (r : nat) (p : list N) : Prop :=
  length p = r /\ NoDup p /\ Forall (fun x => x < N.of_nat r) p.

(** Position of the first [j] in [p] ([length p] when there is none). *)
Fixpoint index_of (j : N) (p : list N) : N :=
  match p with
  | [] => 0
  | x :: p' => if decide (x = j) then 0 else N.succ (index_of j p')
  end.

(** The inverse of a permutation: entry [j] is the position of [j]. *)
Definition inverse_permutation (p : list N) : list N :=
  map (fun j => index_of (N.of_nat j) p) (seq 0 (length p)).

(** [src] read at the positions listed in [p]. *)
Definition gather (src p : list N) : list N :=
  map (fun j => src !!! N.to_nat j) p.

(** Row-major strides over the unbounded naturals: the products of the
    extents to the right. *)
Fixpoint row_major (shape : list N) : list N :=
  match shape with
  | [] => []
  | _ :: rest => product rest :: row_major rest
  end.

(** [Σ idx[i] * strides[i]] over the unbounded naturals. *)
Fixpoint dot (idx strides : list N) : N :=
  match idx, strides with
  | i :: idx', s :: strides' => i * s + dot idx' strides'
  | _, _ => 0
  end.

(** Successive quotients of [flat] by the strides. *)
Fixpoint digits (strides : list N) (flat : N) : list N :=
  match strides with
  | [] => []
  | s :: strides' => flat / s :: digits strides' (flat mod s)
  end.

(** The view transformations, as one family. *)
Inductive view_op : Type :=
| Slice (startIndices endIndices : list N)
| Reshape (newShape : list N)
| Permute (permutation : list N)
| Transpose
| Squeeze (axes : list N)
| Unsqueeze (axes : list N).

Definition apply_view (op : view_op) (m : TensorMetadata)
    : result TensorMetadata :=
  match op with
  | Slice startIndices endIndices => NextSlice m startIndices endIndices
  | Reshape newShape => NextReshape m newShape
  | Permute permutation => NextPermute m permutation
  | Transpose => NextTranspose m
  | Squeeze axes => NextSqueeze m axes
  | Unsqueeze axes => NextUnsqueeze m axes
  end.

(** What both constructors establish, together with the agreement of
    the two lengths. *)
Definition consistent (m : TensorMetadata) : Prop :=
  length (GetStrides m) = length (GetShape m)
  /\ GetRank m = N.of_nat (length (GetShape m))
  /\ GetTotalSize m = ComputeSize (GetShape m).

(** Bounds of one dimension as [NextSlice] tests them. *)
Definition slice_bounds_ok (s e d : N) : Prop := s < e /\ e <= d.

(** An axis [NextSqueeze] accepts: inside the rank, of extent 1. *)
Definition squeezable (shape : list N) (axis : N) : Prop :=
  shape !! N.to_nat axis = Some 1.

(** The inner copy loop of [NextSqueeze] for one listed axis, and the
    body of its loop over the listed axes, as they stand in
    [NextSqueeze]. *)
Definition squeeze_copy_step (m : TensorMetadata) (axis : N)
    (i : N) (newShape : list N) : result (list N) :=
  if decide (i = axis) then Ok newShape
  else x ← vec_get (GetShape m) i; mret (newShape ++ [x]).

Definition squeeze_axis_step (m : TensorMetadata)
    (axis : N) (newShape : list N) : result (list N) :=
  if (GetRank m <=? axis)%N
  then Throw (invalid_argument "Axis out of bounds."%string)
  else
    d ← vec_get (GetShape m) axis;
    if decide (d ≠ 1%N)
    then Throw (invalid_argument
                  "Cannot squeeze axis that is not of size 1."%string)
    else for_range (N.to_nat (GetRank m)) (squeeze_copy_step m axis)
           newShape.

(** The body of the loop of [NextSqueeze] without listed axes. *)
Definition squeeze_all_step (m : TensorMetadata)
    (i : N) (newShape : list N) : result (list N) :=
  d ← vec_get (GetShape m) i;
  if decide (d = 1%N) then Ok newShape
  else x ← vec_get (GetShape m) i; mret (newShape ++ [x]).

(** The body of the loop of [NextUnsqueeze]. *)
Definition unsqueeze_step (axis : N) (newShape : list N)
    : result (list N) :=
  if (N.of_nat (length newShape) <? axis)%N
  then Throw (invalid_argument "Axis out of bounds."%string)
  else Ok (vec_insert newShape axis 1%N).

(** What the loop over the listed axes collects: for each listed axis
    in turn, the whole shape without that axis. *)
Definition squeezed_per_axis (shape axes : list N) : list N :=
  flat_map (fun axis => delete (N.to_nat axis) shape) axes.

(** The strides of the axes whose extent is not 1, in order. *)
Fixpoint retained_strides (shape strides : list N) : list N :=
  match shape, strides with
  | d :: shape', w :: strides' =>
      if decide (d = 1) then retained_strides shape' strides'
      else w :: retained_strides shape' strides'
  | _, _ => []
  end.

(** The shape [NextUnsqueeze] builds: a [1] inserted at each listed
    position in turn. *)
Definition unsqueezed (shape axes : list N) : list N :=
  fold_left (fun s axis => vec_insert s axis 1) axes shape.

(** The strides of a view are the canonical row-major ones of its shape. *)
Definition canonical_strides (m : TensorMetadata) : Prop :=
  GetStrides m = ComputeStrides (GetShape m).

(** ** Machine arithmetic *)

Lemma SIZE_MODULUS_pos : 0 < SIZE_MODULUS.
Proof. reflexivity. Qed.

Lemma wrap_small (x : N) : x < SIZE_MODULUS -> wrap x = x.
Proof. intros H. unfold wrap. now apply N.mod_small. Qed.

Lemma wrap_lt (x : N) : wrap x < SIZE_MODULUS.
Proof. unfold wrap. now apply N.mod_lt. Qed.

Lemma wrap_mul_l (a b : N) : wrap (wrap a * b) = wrap (a * b).
Proof. unfold wrap. now rewrite N.Div0.mul_mod_idemp_l. Qed.

Lemma wrap_mul_r (a b : N) : wrap (a * wrap b) = wrap (a * b).
Proof. unfold wrap. now rewrite N.Div0.mul_mod_idemp_r. Qed.

Lemma size_sub_exact (a b : N) :
  b <= a -> a < SIZE_MODULUS -> size_sub a b = a - b.
Proof.
  intros Hba Ha. unfold size_sub, wrap.
  replace (a + SIZE_MODULUS - b) with (a - b + 1 * SIZE_MODULUS) by lia.
  rewrite N.Div0.mod_add. apply N.mod_small. lia.
Qed.

Lemma size_add_exact (a b : N) :
  a + b < SIZE_MODULUS -> size_add a b = a + b.
Proof. intros H. now apply wrap_small. Qed.

(** ** Loops *)

Lemma for_each_ext {A S : Type} (xs : list A) (f g : A -> S -> result S) s :
  (forall x s', x ∈ xs -> f x s' = g x s') ->
  for_each xs f s = for_each xs g s.
Proof.
  revert s. induction xs as [|x xs IH]; intros s Hfg; simpl; [done|].
  rewrite Hfg by left.
  destruct (g x s) as [s'| | |]; simpl; try done.
  apply IH. intros y s'' Hy. apply Hfg. now right.
Qed.

Lemma for_each_app {A S : Type} (xs ys : list A) (f : A -> S -> result S) s :
  for_each (xs ++ ys) f s = (s' ← for_each xs f s; for_each ys f s').
Proof.
  revert s. induction xs as [|x xs IH]; intros s; simpl; [done|].
  destruct (f x s) as [s'| | |]; simpl; auto.
Qed.

Lemma for_each_seq_shift {S : Type} (a n : nat)
    (body : N -> S -> result S) s :
  for_each (map N.of_nat (seq (Datatypes.S a) n)) body s =
  for_each (map N.of_nat (seq a n)) (fun i => body (N.succ i)) s.
Proof.
  revert a s. induction n as [|n IH]; intros a s; simpl; [done|].
  rewrite <- Nat2N.inj_succ.
  destruct (body (N.of_nat (Datatypes.S a)) s) as [s'| | |]; simpl; auto.
Qed.

Lemma for_range_S {S : Type} (n : nat) (body : N -> S -> result S) s :
  for_range (Datatypes.S n) body s =
  (s' ← body 0 s; for_range n (fun i => body (N.succ i)) s').
Proof.
  unfold for_range. cbn [seq map for_each]. change (N.of_nat 0) with 0.
  destruct (body 0 s) as [s'| | |]; simpl; try done.
  apply for_each_seq_shift.
Qed.

Lemma for_range_snoc {S : Type} (n : nat) (body : N -> S -> result S) s :
  for_range (Datatypes.S n) body s =
  (s' ← for_range n body s; body (N.of_nat n) s').
Proof.
  unfold for_range. rewrite seq_S, map_app, for_each_app. simpl.
  destruct (for_each (map N.of_nat (seq 0 n)) body s) as [s'| | |];
    simpl; try done.
  destruct (body (N.of_nat n) s'); done.
Qed.

Lemma vec_get_cons_0 (x : N) (xs : list N) : vec_get (x :: xs) 0 = Ok x.
Proof. reflexivity. Qed.

Lemma vec_get_cons_succ (x : N) (xs : list N) (i : N) :
  vec_get (x :: xs) (N.succ i) = vec_get xs i.
Proof. unfold vec_get. now rewrite N2Nat.inj_succ. Qed.

Lemma vec_get_lookup (vec : list N) (i : nat) (x : N) :
  vec !! i = Some x -> vec_get vec (N.of_nat i) = Ok x.
Proof. intros H. unfold vec_get. now rewrite Nat2N.id, H. Qed.

(** ** Stride and size arithmetic *)

Section ComputeStridesLoop.
Variable shape : list N.

Lemma ComputeStrides_loop_length (k : nat) (strides : list N) :
  length (ComputeStrides_loop shape strides k) = length strides.
Proof.
  revert strides. induction k as [|i IH]; intros strides; simpl; [done|].
  now rewrite IH, length_insert.
Qed.

(** Positions from [k] upward are not written by the remaining
    iterations. *)
Lemma ComputeStrides_loop_above (k : nat) (strides : list N) (j : nat) :
  (k <= j)%nat ->
  ComputeStrides_loop shape strides k !! j = strides !! j.
Proof.
  revert strides. induction k as [|i IH]; intros strides Hj; simpl; [done|].
  rewrite IH by lia. apply list_lookup_insert_ne. lia.
Qed.

(** Every position below [k] ends up holding the product of its right
    neighbour and the neighbour's extent. *)
Lemma ComputeStrides_loop_below (k : nat) (strides : list N) (j : nat) :
  (j < k)%nat -> (k < length strides)%nat ->
  ComputeStrides_loop shape strides k !! j =
  Some (size_mul (ComputeStrides_loop shape strides k !!! S j)
                 (shape !!! S j)).
Proof.
  revert strides. induction k as [|i IH]; intros strides Hj Hk; [lia|].
  simpl. destruct (decide (j = i)) as [->|Hne].
  - rewrite ComputeStrides_loop_above by lia.
    rewrite list_lookup_insert_eq by lia.
    rewrite !list_lookup_total_alt.
    rewrite ComputeStrides_loop_above by lia.
    rewrite list_lookup_insert_ne by lia. done.
  - apply IH; [lia|]. rewrite length_insert. lia.
Qed.

(** The result only depends on the entries from [k] upward. *)
Lemma ComputeStrides_loop_agree (k : nat) (s1 s2 : list N) :
  length s1 = length s2 ->
  (forall j, (k <= j)%nat -> s1 !! j = s2 !! j) ->
  ComputeStrides_loop shape s1 k = ComputeStrides_loop shape s2 k.
Proof.
  revert s1 s2. induction k as [|i IH]; intros s1 s2 Hlen Hagree; simpl.
  - apply list_eq. intros j. apply Hagree. lia.
  - apply IH; [now rewrite !length_insert|].
    intros j Hj. rewrite !list_lookup_total_alt, (Hagree (S i)) by lia.
    destruct (decide (j = i)) as [->|Hne].
    + destruct (decide (i < length s1)%nat) as [Hlt|Hge].
      * rewrite !list_lookup_insert_eq by lia. done.
      * rewrite !list_insert_ge by lia.
        rewrite !lookup_ge_None_2 by lia. done.
    + rewrite !list_lookup_insert_ne by lia. apply Hagree. lia.
Qed.
End ComputeStridesLoop.

Lemma ComputeStrides_length (shape : list N) :
  length (ComputeStrides shape) = length shape.
Proof.
  unfold ComputeStrides. now rewrite ComputeStrides_loop_length, length_replicate.
Qed.

Lemma ComputeStrides_last (shape : list N) :
  shape ≠ [] -> last (ComputeStrides shape) = Some 1.
Proof.
  intros Hne. rewrite last_lookup, ComputeStrides_length.
  unfold ComputeStrides.
  rewrite ComputeStrides_loop_above by lia.
  apply lookup_replicate_2. destruct shape; [done|]. simpl. lia.
Qed.

Lemma ComputeStrides_step (shape : list N) (i : nat) :
  (S i < length shape)%nat ->
  ComputeStrides shape !! i =
  Some (size_mul (ComputeStrides shape !!! S i) (shape !!! S i)).
Proof.
  intros Hi. unfold ComputeStrides.
  apply ComputeStrides_loop_below; [lia|]. rewrite length_replicate. lia.
Qed.

Lemma fold_left_size_mul (shape : list N) (a : N) :
  a < SIZE_MODULUS ->
  fold_left size_mul shape a = wrap (a * product shape).
Proof.
  revert a. induction shape as [|d shape IH]; intros a Ha; simpl.
  - now rewrite N.mul_1_r, wrap_small.
  - rewrite IH by apply wrap_lt. unfold size_mul.
    now rewrite wrap_mul_l, N.mul_assoc.
Qed.

Lemma ComputeSize_product (shape : list N) :
  ComputeSize shape = wrap (product shape).
Proof.
  unfold ComputeSize. rewrite fold_left_size_mul by reflexivity.
  now rewrite N.mul_1_l.
Qed.

Lemma ComputeStrides_static_dynamic (n : nat) (shape : list N) :
  length shape = n -> ComputeStrides_static n shape = ComputeStrides shape.
Proof.
  intros <-. unfold ComputeStrides_static, ComputeStrides.
  destruct shape as [|d shape]; [done|].
  cbn [length]. replace (S (length shape) - 1)%nat with (length shape) by lia.
  apply ComputeStrides_loop_agree.
  - now rewrite length_insert, !length_replicate.
  - intros j Hj. destruct (decide (j = length shape)) as [->|Hne].
    + rewrite list_lookup_insert_eq by (rewrite length_replicate; lia).
      symmetry. apply lookup_replicate_2. lia.
    + rewrite !(lookup_ge_None_2 _ j); [done| |];
        rewrite ?length_insert, length_replicate; lia.
Qed.

Lemma ComputeSize_static_dynamic (n : nat) (shape : list N) :
  length shape = n -> ComputeSize_static n shape = ComputeSize shape.
Proof.
  intros <-. now destruct shape.
Qed.

(** C9, as amended. [ComputeStrides] returns the canonical row-major
    strides in [size_t] arithmetic: as many as the shape has dimensions,
    the last one [1], and each other one the product modulo [2^64] of its
    right neighbour and that neighbour's extent. [ComputeSize] returns
    the product of all dimensions modulo [2^64], which is the product
    itself whenever that is below [2^64], and [1] for the empty shape. On [{2,3,4}] they give [{12,4,1}] and [24]. The
    constexpr forms over [std::array<size_t, N>] agree with the runtime
    forms on every shape of [N] dimensions. *)
Theorem ComputeStrides_ComputeSize_canonical :
  (forall shape : list N,
      length (ComputeStrides shape) = length shape
      /\ (shape ≠ [] -> last (ComputeStrides shape) = Some 1)
      /\ (forall i : nat, (S i < length shape)%nat ->
            ComputeStrides shape !! i =
            Some (size_mul (ComputeStrides shape !!! S i) (shape !!! S i)))
      /\ ComputeSize shape = wrap (product shape)
      /\ (product shape < SIZE_MODULUS -> ComputeSize shape = product shape))
  /\ ComputeSize [] = 1
  /\ ComputeStrides [2; 3; 4] = [12; 4; 1]
  /\ ComputeSize [2; 3; 4] = 24
  /\ (forall (n : nat) (shape : list N), length shape = n ->
        ComputeStrides_static n shape = ComputeStrides shape
        /\ ComputeSize_static n shape = ComputeSize shape).
Proof.
  split; [|repeat split].
  - intros shape. repeat split.
    + apply ComputeStrides_length.
    + apply ComputeStrides_last.
    + apply ComputeStrides_step.
    + apply ComputeSize_product.
    + intros H. rewrite ComputeSize_product. now apply wrap_small.
  - now apply ComputeStrides_static_dynamic.
  - now apply ComputeSize_static_dynamic.
Qed.

Lemma ComputeStrides_ComputeSize_canonical_witness :
  last (ComputeStrides [2; 3; 4]) = Some 1
  /\ ComputeStrides [2; 3; 4] !! 0%nat =
     Some (size_mul (ComputeStrides [2; 3; 4] !!! 1%nat) ([2; 3; 4] !!! 1%nat))
  /\ ComputeSize [2; 3; 4] = product [2; 3; 4]
  /\ ComputeStrides_static 3 [2; 3; 4] = ComputeStrides [2; 3; 4].
Proof.
  destruct ComputeStrides_ComputeSize_canonical as (Hall & _ & _ & _ & Hst).
  destruct (Hall [2; 3; 4]) as (_ & Hlast & Hstep & _ & Hsize).
  split; [apply Hlast; discriminate|].
  split; [apply Hstep; simpl; lia|].
  split; [apply Hsize; reflexivity|].
  apply (Hst 3%nat [2; 3; 4]). reflexivity.
Defined.

(** C9 as stated fails once a product overflows [size_t]:
    [ComputeSize({2^63, 3})] is [2^63], not [3 * 2^63], and
    [ComputeStrides({2, 2^63 + 1, 2})] is [{2, 2, 1}], whose first stride
    is not [strides[1] * shape[1] = 2^64 + 2]. *)
Lemma ComputeSize_ComputeStrides_overflow :
  ComputeSize [2 ^ 63; 3] = 2 ^ 63
  /\ product [2 ^ 63; 3] = 3 * 2 ^ 63
  /\ ComputeSize [2 ^ 63; 3] ≠ product [2 ^ 63; 3]
  /\ ComputeStrides [2; 2 ^ 63 + 1; 2] = [2; 2; 1]
  /\ (ComputeStrides [2; 2 ^ 63 + 1; 2] !!! 1%nat)
     * ([2; 2 ^ 63 + 1; 2] !!! 1%nat) = 2 ^ 64 + 2
  /\ ComputeStrides [2; 2 ^ 63 + 1; 2] !!! 0%nat ≠
     (ComputeStrides [2; 2 ^ 63 + 1; 2] !!! 1%nat)
     * ([2; 2 ^ 63 + 1; 2] !!! 1%nat).
Proof.
  split; [vm_compute; reflexivity|]. split; [vm_compute; reflexivity|].
  split; [vm_compute; discriminate|]. split; [vm_compute; reflexivity|].
  split; [vm_compute; reflexivity|]. vm_compute. discriminate.
Qed.

(** ** In-place reversal *)

Lemma vec_set_insert (vec : list N) (i : nat) (x : N) :
  (i < length vec)%nat -> vec_set vec (N.of_nat i) x = Ok (<[i := x]> vec).
Proof.
  intros Hi. unfold vec_set. rewrite Nat2N.id. now rewrite decide_True.
Qed.

Lemma vec_get_None (vec : list N) (i : N) :
  (length vec <= N.to_nat i)%nat -> vec_get vec i = Undefined.
Proof. intros Hi. unfold vec_get. now rewrite lookup_ge_None_2. Qed.

(** One swap of the two ends of the part still to be reversed. *)
Lemma swap_ends (pre mid post : list N) (a b : N) :
  <[(length pre + S (length mid))%nat := a]>
    (<[length pre := b]> (pre ++ (a :: mid ++ [b]) ++ post)) =
  (pre ++ [b]) ++ mid ++ (a :: post).
Proof.
  replace (length pre) with (length pre + 0)%nat at 2 by lia.
  rewrite insert_app_r. cbn [app]. rewrite insert_app_r.
  change (<[0%nat := b]> (a :: (mid ++ [b]) ++ post))
    with (b :: (mid ++ [b]) ++ post).
  change (<[S (length mid) := a]> (b :: (mid ++ [b]) ++ post))
    with (b :: <[length mid := a]> ((mid ++ [b]) ++ post)).
  rewrite <- !app_assoc. cbn [app]. f_equal. f_equal.
  rewrite insert_app_r_alt by lia. now rewrite Nat.sub_diag.
Qed.

(** With [left] and [right] at the two ends of [mid], the loop reverses
    [mid] in place and leaves the rest alone. *)
Lemma NextReverse_loop_rev (fuel : nat) :
  forall mid pre post : list N,
    length pre = length post ->
    (length mid <= fuel)%nat ->
    (1 <= length pre + length mid)%nat ->
    N.of_nat (length pre + length mid + length post) < SIZE_MODULUS ->
    NextReverse_loop fuel (pre ++ mid ++ post)
      (N.of_nat (length pre)) (N.of_nat (length pre + length mid - 1)) =
    Ok (pre ++ rev mid ++ post).
Proof.
  induction fuel as [|fuel IH]; intros mid pre post Hpp Hfuel Hne Hsz.
  - destruct mid; [|simpl in Hfuel; lia]. simpl.
    replace (N.of_nat (length pre) <? N.of_nat (length pre + 0 - 1)) with false
      by (symmetry; apply N.ltb_ge; lia).
    done.
  - destruct mid as [|a mid]; [|destruct mid as [|b mid _] using rev_ind].
    + cbn [NextReverse_loop].
      replace (N.of_nat (length pre) <? N.of_nat (length pre + length [] - 1))
        with false by (symmetry; apply N.ltb_ge; simpl; lia).
      done.
    + cbn [NextReverse_loop].
      replace (N.of_nat (length pre) <? N.of_nat (length pre + length [a] - 1))
        with false by (symmetry; apply N.ltb_ge; simpl; lia).
      done.
    + cbn [NextReverse_loop].
      rewrite length_cons, length_app in *. cbn [length] in *.
      replace (N.of_nat (length pre) <?
               N.of_nat (length pre + S (length mid + 1) - 1))
        with true by (symmetry; apply N.ltb_lt; lia).
      replace (length pre + S (length mid + 1) - 1)%nat
        with (length pre + S (length mid))%nat by lia.
      assert (Ha : (pre ++ (a :: mid ++ [b]) ++ post) !! length pre = Some a)
        by (cbn [app]; now apply list_lookup_middle).
      assert (Hb : (pre ++ (a :: mid ++ [b]) ++ post)
                     !! (length pre + S (length mid))%nat = Some b).
      { rewrite lookup_app_r by lia.
        replace (length pre + S (length mid) - length pre)%nat
          with (S (length mid)) by lia.
        cbn [app lookup list_lookup]. rewrite <- app_assoc.
        now apply list_lookup_middle. }
      rewrite (vec_get_lookup _ _ a Ha), (vec_get_lookup _ _ b Hb).
      cbn [mbind result_bind].
      rewrite vec_set_insert by (rewrite !length_app; simpl; lia).
      cbn [mbind result_bind].
      rewrite vec_set_insert
        by (rewrite length_insert, !length_app; simpl;
            rewrite length_app; simpl; lia).
      cbn [mbind result_bind].
      rewrite swap_ends.
      rewrite size_add_exact by lia.
      rewrite size_sub_exact by lia.
      replace (N.of_nat (length pre) + 1) with (N.of_nat (length (pre ++ [b])))
        by (rewrite length_app; simpl; lia).
      replace (N.of_nat (length pre + S (length mid)) - 1)
        with (N.of_nat (length (pre ++ [b]) + length mid - 1))
        by (rewrite length_app; simpl; lia).
      rewrite IH.
      * cbn [rev]. rewrite rev_app_distr. cbn.
        now rewrite <- !app_assoc.
      * rewrite length_app. simpl. lia.
      * lia.
      * rewrite length_app. simpl. lia.
      * rewrite length_app. simpl. lia.
Qed.

Lemma NextReverse_rev (vec : list N) :
  vec ≠ [] -> N.of_nat (length vec) < SIZE_MODULUS ->
  NextReverse vec = Ok (rev vec).
Proof.
  intros Hne Hsz. unfold NextReverse.
  rewrite size_sub_exact; [|destruct vec; [done|simpl; lia]|done].
  pose proof (NextReverse_loop_rev (S (length vec)) vec [] []) as H.
  cbn [app length] in H. rewrite !app_nil_r in H.
  replace (N.of_nat (length vec) - 1) with (N.of_nat (0 + length vec - 1))
    by lia.
  apply H; [done|lia| |].
  - destruct vec; [done|simpl; lia].
  - now rewrite Nat.add_0_r.
Qed.

Lemma NextReverse_empty : NextReverse [] = Undefined.
Proof. reflexivity. Qed.

(** ** Well-formed metadata *)

Lemma well_formed_of_shape (shape : list N) (offset : N) :
  N.of_nat (length shape) < SIZE_MODULUS ->
  well_formed (TensorMetadata_of_shape shape offset).
Proof.
  intros Hb. split; try done. apply ComputeStrides_length.
Qed.

Lemma well_formed_of_strides (shape stride : list N) (offset : N) :
  length stride = length shape ->
  N.of_nat (length shape) < SIZE_MODULUS ->
  well_formed (TensorMetadata_of_strides shape stride offset).
Proof. intros Hl Hb. now split. Qed.

(** ** Transposition (the default of [NextPermute]) *)

Lemma NextPermute_default_rank0 (m : TensorMetadata) :
  GetShape m = [] -> NextPermute m [] = Undefined.
Proof. intros H. unfold NextPermute. cbv zeta. now rewrite H. Qed.

Lemma NextPermute_default_rev (m : TensorMetadata) :
  well_formed m -> GetShape m ≠ [] ->
  NextPermute m [] =
  Ok (TensorMetadata_of_strides (rev (GetShape m)) (rev (GetStrides m))
        (GetOffset m)).
Proof.
  intros [Hs _ _ Hb] Hne. unfold NextPermute. cbv zeta.
  rewrite (NextReverse_rev (GetShape m)) by done.
  rewrite (NextReverse_rev (GetStrides m)); [done| |now rewrite Hs].
  intros Hnil. apply Hne. apply length_zero_iff_nil.
  now rewrite <- Hs, Hnil.
Qed.

(** The default branch needs no more than two non-empty vectors. *)
Lemma NextPermute_default_nonempty (m : TensorMetadata) :
  GetShape m ≠ [] -> GetStrides m ≠ [] ->
  N.of_nat (length (GetShape m)) < SIZE_MODULUS ->
  N.of_nat (length (GetStrides m)) < SIZE_MODULUS ->
  NextPermute m [] =
  Ok (TensorMetadata_of_strides (rev (GetShape m)) (rev (GetStrides m))
        (GetOffset m)).
Proof.
  intros Hne Hst Hb1 Hb2. unfold NextPermute. cbv zeta.
  rewrite (NextReverse_rev (GetShape m)) by done.
  now rewrite (NextReverse_rev (GetStrides m)) by done.
Qed.

Lemma NextPermute_default_no_strides (m : TensorMetadata) :
  GetShape m ≠ [] -> GetStrides m = [] ->
  N.of_nat (length (GetShape m)) < SIZE_MODULUS ->
  NextPermute m [] = Undefined.
Proof.
  intros Hne Hst Hb. unfold NextPermute. cbv zeta.
  rewrite (NextReverse_rev (GetShape m)) by done.
  now rewrite Hst.
Qed.

(** C10, as amended. On a rank-0 metadata the default (empty)
    permutation, and so [NextTranspose], is unsafe: [NextReverse]
    computes [right = vec.size() - 1], which underflows to [2^64 - 1] on
    the empty vector, the loop condition [0 < right] holds, and the body
    indexes the empty vector. For a metadata of rank at least 1 the
    reversal stays within bounds, and returns the reversed shape and
    strides, exactly when its strides vector is not empty, as it is
    whenever the metadata has as many strides as extents; with an empty
    strides vector the reversal of the strides underflows in the same
    way. *)
Theorem NextReverse_underflow_rank0 :
  size_sub (N.of_nat (length (@nil N))) 1 = SIZE_MODULUS - 1
  /\ (0 <? size_sub (N.of_nat (length (@nil N))) 1) = true
  /\ vec_get [] 0 = Undefined
  /\ NextReverse [] = Undefined
  /\ (forall m : TensorMetadata, GetShape m = [] ->
        NextPermute m [] = Undefined /\ NextTranspose m = Undefined)
  /\ (forall vec : list N, vec ≠ [] ->
        N.of_nat (length vec) < SIZE_MODULUS ->
        NextReverse vec = Ok (rev vec))
  /\ (forall m : TensorMetadata, well_formed m -> GetShape m ≠ [] ->
        NextPermute m [] =
        Ok (TensorMetadata_of_strides (rev (GetShape m))
              (rev (GetStrides m)) (GetOffset m)))
  /\ (forall m : TensorMetadata,
        GetShape m ≠ [] ->
        N.of_nat (length (GetShape m)) < SIZE_MODULUS ->
        N.of_nat (length (GetStrides m)) < SIZE_MODULUS ->
        (GetStrides m ≠ [] ->
         NextPermute m [] =
         Ok (TensorMetadata_of_strides (rev (GetShape m))
               (rev (GetStrides m)) (GetOffset m)))
        /\ (GetStrides m = [] -> NextPermute m [] = Undefined)).
Proof.
  split; [reflexivity|]. split; [reflexivity|].
  split; [reflexivity|]. split; [reflexivity|].
  split; [|split; [|split]].
  - intros m Hm. unfold NextTranspose.
    split; now apply NextPermute_default_rank0.
  - intros vec Hne Hb. now apply NextReverse_rev.
  - intros m Hwf Hne. now apply NextPermute_default_rev.
  - intros m Hne Hb1 Hb2. split; intros Hst.
    + now apply NextPermute_default_nonempty.
    + now apply NextPermute_default_no_strides.
Qed.

Lemma NextReverse_underflow_rank0_witness :
  NextPermute (TensorMetadata_of_shape [] 0) [] = Undefined
  /\ NextPermute (TensorMetadata_of_shape [2; 3; 4] 0) [] =
     Ok (TensorMetadata_of_strides [4; 3; 2] [1; 4; 12] 0)
  /\ NextPermute (TensorMetadata_of_strides [2; 3] [7] 0) [] =
     Ok (TensorMetadata_of_strides [3; 2] [7] 0)
  /\ NextPermute (TensorMetadata_of_strides [2; 3] [] 0) [] = Undefined.
Proof.
  destruct NextReverse_underflow_rank0
    as (_ & _ & _ & _ & H0 & _ & H1 & H2).
  split; [|split; [|split]].
  - apply (H0 (TensorMetadata_of_shape [] 0)). reflexivity.
  - apply (H1 (TensorMetadata_of_shape [2; 3; 4] 0)).
    + apply well_formed_of_shape. reflexivity.
    + discriminate.
  - apply (proj1 (H2 (TensorMetadata_of_strides [2; 3] [7] 0)
                    ltac:(discriminate) eq_refl eq_refl)).
    discriminate.
  - apply (proj2 (H2 (TensorMetadata_of_strides [2; 3] [] 0)
                    ltac:(discriminate) eq_refl eq_refl)).
    reflexivity.
Defined.

(** C10 as stated fails for rank at least 1: the constructor that takes
    the strides stores them unchecked, so [TensorMetadata({2,3}, {}, 0)]
    has rank 2 and an empty strides vector, and the default permutation
    reverses that empty vector out of bounds. *)
Lemma NextPermute_default_empty_strides :
  GetRank (TensorMetadata_of_strides [2; 3] [] 0) = 2
  /\ GetStrides (TensorMetadata_of_strides [2; 3] [] 0) = []
  /\ NextReverse (GetShape (TensorMetadata_of_strides [2; 3] [] 0)) =
     Ok [3; 2]
  /\ NextReverse (GetStrides (TensorMetadata_of_strides [2; 3] [] 0)) =
     Undefined
  /\ NextPermute (TensorMetadata_of_strides [2; 3] [] 0) [] = Undefined
  /\ NextTranspose (TensorMetadata_of_strides [2; 3] [] 0) = Undefined.
Proof. repeat split. Qed.

(** ** Custom permutations *)

Lemma vec_get_total (vec : list N) (i : N) :
  (N.to_nat i < length vec)%nat -> vec_get vec i = Ok (vec !!! N.to_nat i).
Proof.
  intros Hi. unfold vec_get.
  destruct (lookup_lt_is_Some_2 vec _ Hi) as [x Hx].
  rewrite Hx. now rewrite (list_lookup_total_correct _ _ _ Hx).
Qed.

Lemma insert_replicate_head (pre : list N) (n k : nat) (x : N) :
  length pre = k ->
  <[k := x]> (pre ++ replicate (S n) 0) = (pre ++ [x]) ++ replicate n 0.
Proof.
  intros <-. rewrite insert_app_r_alt by lia. rewrite Nat.sub_diag.
  now rewrite <- app_assoc.
Qed.

Lemma gather_length (src p : list N) : length (gather src p) = length p.
Proof. unfold gather. now rewrite length_map. Qed.

Lemma gather_take_S (src p : list N) (k : nat) (x : N) :
  p !! k = Some x ->
  gather src (take (S k) p) = gather src (take k p) ++ [src !!! N.to_nat x].
Proof.
  intros Hk. rewrite (take_S_r _ _ _ Hk). unfold gather.
  now rewrite map_app.
Qed.

Section PermuteLoop.
Variables shape strides p : list N.
Hypothesis Hstrides : length strides = length shape.
Hypothesis Hlen : length p = length shape.
Hypothesis Hrange : forall x, x ∈ p -> (N.to_nat x < length shape)%nat.

Lemma NextPermute_loop_gather (k : nat) :
  (k <= length p)%nat ->
  for_range k (NextPermute_step shape strides p)
    (replicate (length shape) 0, replicate (length strides) 0) =
  Ok (gather shape (take k p) ++ replicate (length shape - k) 0,
      gather strides (take k p) ++ replicate (length shape - k) 0).
Proof.
  induction k as [|k IH]; intros Hk.
  - rewrite Nat.sub_0_r, Hstrides. reflexivity.
  - rewrite for_range_snoc, IH by lia. cbn [mbind result_bind].
    destruct (lookup_lt_is_Some_2 p k ltac:(lia)) as [x Hx].
    pose proof (Hrange x (list_elem_of_lookup_2 _ _ _ Hx)) as Hxr.
    unfold NextPermute_step.
    rewrite (vec_get_lookup _ _ _ Hx). cbn [mbind result_bind].
    rewrite (vec_get_total shape) by done. cbn [mbind result_bind].
    rewrite (vec_get_total strides) by lia.
    replace (length shape - k)%nat with (S (length shape - S k)) by lia.
    assert (Hg1 : length (gather shape (take k p)) = k)
      by (rewrite gather_length, length_take; lia).
    assert (Hg2 : length (gather strides (take k p)) = k)
      by (rewrite gather_length, length_take; lia).
    rewrite vec_set_insert by (rewrite length_app, length_replicate; lia).
    cbn [mbind result_bind].
    rewrite vec_set_insert by (rewrite length_app, length_replicate; lia).
    cbn [mbind result_bind mret result_ret].
    rewrite !insert_replicate_head by done.
    now rewrite !(gather_take_S _ _ _ _ Hx).
Qed.
End PermuteLoop.

(** What the custom branch of [NextPermute] returns when every entry of
    the permutation vector is a position of the shape. *)
Lemma NextPermute_gather (m : TensorMetadata) (p : list N) :
  well_formed m -> p ≠ [] ->
  length p = length (GetShape m) ->
  (forall x, x ∈ p -> (N.to_nat x < length (GetShape m))%nat) ->
  NextPermute m p =
  Ok (TensorMetadata_of_strides (gather (GetShape m) p)
        (gather (GetStrides m) p) (GetOffset m)).
Proof.
  intros [Hs _ _ _] Hne Hlen Hrange. unfold NextPermute. cbv zeta.
  destruct p as [|x p]; [done|].
  rewrite decide_False by (intros H; now apply H).
  rewrite NextPermute_loop_gather by (done || lia).
  cbn [mbind result_bind mret result_ret fst snd].
  rewrite Hlen, Nat.sub_diag. cbn [replicate]. rewrite !app_nil_r.
  rewrite <- Hlen. now rewrite firstn_all.
Qed.

(** ** Inverse permutations *)

Lemma index_of_lookup (j : N) (p : list N) :
  j ∈ p -> p !! N.to_nat (index_of j p) = Some j.
Proof.
  induction p as [|x p IH]; intros Hin; [now apply not_elem_of_nil in Hin|].
  cbn [index_of]. destruct (decide (x = j)) as [->|Hne]; [done|].
  rewrite N2Nat.inj_succ. cbn. apply IH.
  apply elem_of_cons in Hin as [->|Hin]; done.
Qed.

(** A duplicate-free list of [r] numbers below [r] contains all of them. *)
Lemma valid_permutation_complete (r : nat) (p : list N) (j : nat) :
  valid_permutation r p -> (j < r)%nat -> N.of_nat j ∈ p.
Proof.
  intros (Hlen & Hnd & Hall) Hj.
  assert (Hsub : p ⊆+ (N.of_nat <$> seq 0 r)).
  { apply NoDup_submseteq; [done|]. intros x Hx.
    rewrite Forall_forall in Hall. specialize (Hall x Hx).
    apply list_elem_of_fmap. exists (N.to_nat x). split; [lia|].
    apply elem_of_seq. lia. }
  apply submseteq_length_Permutation in Hsub.
  - rewrite Hsub. apply list_elem_of_fmap. exists j. split; [done|].
    apply elem_of_seq. lia.
  - rewrite length_fmap, length_seq. lia.
Qed.

Lemma inverse_permutation_length (p : list N) :
  length (inverse_permutation p) = length p.
Proof. unfold inverse_permutation. now rewrite length_map, length_seq. Qed.

Lemma inverse_permutation_range (p : list N) (x : N) :
  valid_permutation (length p) p ->
  x ∈ inverse_permutation p -> (N.to_nat x < length p)%nat.
Proof.
  intros Hv Hx. unfold inverse_permutation in Hx.
  apply list_elem_of_fmap in Hx as (j & -> & Hj).
  apply elem_of_seq in Hj.
  apply (lookup_lt_Some p _ (N.of_nat j)).
  apply index_of_lookup.
  apply (valid_permutation_complete (length p)); [done|lia].
Qed.

Lemma gather_inverse_permutation (p : list N) :
  valid_permutation (length p) p ->
  gather p (inverse_permutation p) = map N.of_nat (seq 0 (length p)).
Proof.
  intros Hv. unfold gather, inverse_permutation. rewrite map_map.
  apply map_ext_in. intros j Hj. apply in_seq in Hj.
  apply list_lookup_total_correct, index_of_lookup.
  apply (valid_permutation_complete (length p)); [done|lia].
Qed.

Lemma gather_gather (src p q : list N) :
  (forall x, x ∈ q -> (N.to_nat x < length p)%nat) ->
  gather (gather src p) q = gather src (gather p q).
Proof.
  intros Hq. unfold gather. rewrite map_map.
  apply map_ext_in. intros x Hx. apply list_elem_of_In in Hx.
  specialize (Hq x Hx).
  destruct (lookup_lt_is_Some_2 p _ Hq) as [y Hy].
  rewrite (list_lookup_total_correct p _ _ Hy).
  apply list_lookup_total_correct.
  change (map ?f p) with (f <$> p). now rewrite list_lookup_fmap, Hy.
Qed.

Lemma gather_identity (src : list N) :
  gather src (map N.of_nat (seq 0 (length src))) = src.
Proof.
  apply list_eq. intros i. unfold gather. rewrite map_map.
  change (map ?f (seq 0 ?n)) with (f <$> seq 0 n).
  rewrite list_lookup_fmap.
  destruct (decide (i < length src)%nat) as [Hi|Hi].
  - rewrite lookup_seq_lt by done. cbn. rewrite Nat2N.id.
    destruct (lookup_lt_is_Some_2 src _ Hi) as [y Hy].
    now rewrite (list_lookup_total_correct _ _ _ Hy).
  - rewrite lookup_seq_ge by lia. cbn. symmetry.
    apply lookup_ge_None_2. lia.
Qed.

(** Permuting by [p] and then by its inverse gives back the shape and the
    strides, for every well-formed metadata of rank at least 1. *)
Lemma NextPermute_inverse_restores (m : TensorMetadata) (p : list N) :
  well_formed m -> GetShape m ≠ [] ->
  valid_permutation (length (GetShape m)) p ->
  (m1 ← NextPermute m p; NextPermute m1 (inverse_permutation p)) =
  Ok (TensorMetadata_of_strides (GetShape m) (GetStrides m) (GetOffset m)).
Proof.
  intros Hwf Hne Hv. pose proof Hv as (Hlen & Hnd & Hall).
  assert (Hp : p ≠ []).
  { intros ->. apply Hne, length_zero_iff_nil. now rewrite <- Hlen. }
  assert (Hrange : forall x, x ∈ p -> (N.to_nat x < length (GetShape m))%nat).
  { intros x Hx. rewrite Forall_forall in Hall. specialize (Hall x Hx). lia. }
  rewrite NextPermute_gather by done. cbn [mbind result_bind].
  rewrite <- Hlen in Hv.
  rewrite NextPermute_gather.
  - cbn. unfold GetShape, GetStrides, GetOffset. cbn.
    rewrite !gather_gather
      by (intros x Hx; now apply inverse_permutation_range).
    rewrite gather_inverse_permutation by done.
    destruct Hwf as [Hs _ _ _]. unfold GetShape, GetStrides in Hs, Hlen.
    rewrite Hlen. rewrite gather_identity.
    rewrite <- Hs. now rewrite gather_identity.
  - apply well_formed_of_strides.
    + now rewrite !gather_length.
    + rewrite gather_length, Hlen. apply Hwf.
  - intros Hnil. apply Hp, length_zero_iff_nil.
    now rewrite <- inverse_permutation_length, Hnil.
  - cbn. now rewrite inverse_permutation_length, gather_length.
  - intros x Hx. cbn. rewrite gather_length.
    now apply inverse_permutation_range.
Qed.

(** ** Canonical strides, structurally *)

Lemma product_nil : product [] = 1.
Proof. reflexivity. Qed.

Lemma product_cons (d : N) (rest : list N) :
  product (d :: rest) = d * product rest.
Proof. reflexivity. Qed.

Lemma product_pos (shape : list N) :
  Forall (fun d => 0 < d) shape -> 0 < product shape.
Proof.
  induction 1 as [|d shape Hd _ IH];
    rewrite ?product_nil, ?product_cons; [lia|nia].
Qed.

Lemma ComputeStrides_lookup (shape : list N) (t j : nat) :
  (j + t + 1 = length shape)%nat ->
  ComputeStrides shape !! j = Some (wrap (product (drop (S j) shape))).
Proof.
  revert j. induction t as [|t IH]; intros j Hj.
  - rewrite drop_ge by lia. rewrite product_nil.
    pose proof (ComputeStrides_last shape) as Hlast.
    rewrite last_lookup, ComputeStrides_length in Hlast.
    replace j with (pred (length shape)) by lia.
    apply Hlast. intros ->. simpl in Hj. lia.
  - rewrite ComputeStrides_step by lia.
    pose proof (IH (S j) ltac:(lia)) as HS.
    rewrite (list_lookup_total_correct _ _ _ HS).
    destruct (lookup_lt_is_Some_2 shape (S j) ltac:(lia)) as [d Hd].
    rewrite (list_lookup_total_correct _ _ _ Hd).
    rewrite (drop_S _ _ _ Hd), product_cons.
    unfold size_mul. rewrite wrap_mul_l. f_equal. f_equal. lia.
Qed.

Lemma ComputeStrides_cons (d : N) (rest : list N) :
  ComputeStrides (d :: rest) = wrap (product rest) :: ComputeStrides rest.
Proof.
  apply list_eq. intros [|j].
  - rewrite (ComputeStrides_lookup _ (length rest)) by (simpl; lia). done.
  - cbn [lookup list_lookup].
    destruct (decide (j < length rest)%nat) as [Hj|Hj].
    + rewrite (ComputeStrides_lookup _ (length rest - S j))
        by (simpl; lia).
      rewrite (ComputeStrides_lookup rest (length rest - S j)) by lia.
      done.
    + change (ComputeStrides (d :: rest) !! S j = ComputeStrides rest !! j).
      rewrite !lookup_ge_None_2; [done| |];
        rewrite ComputeStrides_length; simpl; lia.
Qed.

(** Without overflow the computed strides are the mathematical ones. *)
Lemma ComputeStrides_row_major (shape : list N) :
  Forall (fun d => 0 < d) shape -> product shape < SIZE_MODULUS ->
  ComputeStrides shape = row_major shape.
Proof.
  induction 1 as [|d rest Hd Hrest IH]; intros Hb; [done|].
  rewrite product_cons in Hb.
  assert (Hr : product rest < SIZE_MODULUS) by nia.
  rewrite ComputeStrides_cons, IH by done.
  cbn [row_major]. now rewrite wrap_small.
Qed.

Lemma row_major_nonzero (shape : list N) :
  Forall (fun d => 0 < d) shape -> Forall (fun s => s ≠ 0) (row_major shape).
Proof.
  induction 1 as [|d rest Hd Hrest IH]; cbn [row_major]; constructor;
    [|done].
  pose proof (product_pos rest Hrest). lia.
Qed.

Lemma Forall2_lt_pos (idx shape : list N) :
  Forall2 N.lt idx shape -> Forall (fun d => 0 < d) shape.
Proof. induction 1; constructor; [lia|done]. Qed.

(** A valid multi-index addresses an element inside the buffer. *)
Lemma dot_row_major_lt (idx shape : list N) :
  Forall2 N.lt idx shape -> dot idx (row_major shape) < product shape.
Proof.
  induction 1 as [|i d idx rest Hi Hrest IH];
    cbn [dot row_major]; rewrite ?product_nil, ?product_cons; [lia|nia].
Qed.

Lemma digits_row_major (idx shape : list N) :
  Forall2 N.lt idx shape ->
  digits (row_major shape) (dot idx (row_major shape)) = idx.
Proof.
  induction 1 as [|i d idx rest Hi Hrest IH];
    cbn [dot row_major digits]; [done|].
  pose proof (dot_row_major_lt _ _ Hrest) as Hlt.
  assert (Hp : product rest ≠ 0) by lia.
  replace (i * product rest + dot idx (row_major rest))
    with (dot idx (row_major rest) + i * product rest) by lia.
  rewrite N.div_add by done. rewrite N.Div0.mod_add.
  rewrite N.div_small, N.mod_small by done. now rewrite N.add_0_l, IH.
Qed.

(** ** Index mapping *)

Lemma FlattenIndex_loop_cons (s0 x0 : N) (strides indices : list N) (acc : N) :
  for_range (length (s0 :: strides))
    (FlattenIndex_step (s0 :: strides) (x0 :: indices)) acc =
  for_range (length strides) (FlattenIndex_step strides indices)
    (size_add acc (size_mul x0 s0)).
Proof.
  cbn [length]. rewrite for_range_S.
  change (FlattenIndex_step (s0 :: strides) (x0 :: indices) 0 acc)
    with (Ok (size_add acc (size_mul x0 s0)) : result N).
  cbn [mbind result_bind].
  apply for_each_ext. intros i acc' _.
  unfold FlattenIndex_step. now rewrite !vec_get_cons_succ.
Qed.

(** Without overflow [FlattenIndex] is the dot product. *)
Lemma FlattenIndex_loop_dot (strides : list N) :
  forall (indices : list N) (acc : N),
    length indices = length strides ->
    acc + dot indices strides < SIZE_MODULUS ->
    for_range (length strides) (FlattenIndex_step strides indices) acc =
    Ok (acc + dot indices strides).
Proof.
  induction strides as [|s strides IH]; intros indices acc Hlen Hb.
  - destruct indices; [|done]. cbn. f_equal. lia.
  - destruct indices as [|x indices]; [done|].
    cbn [dot] in Hb |- *. rewrite FlattenIndex_loop_cons.
    assert (Hm : size_mul x s = x * s) by (apply wrap_small; lia).
    rewrite Hm, size_add_exact by lia.
    rewrite IH; [f_equal; lia|now injection Hlen|lia].
Qed.

Lemma FlattenIndex_dot (strides indices : list N) :
  length indices = length strides ->
  dot indices strides < SIZE_MODULUS ->
  FlattenIndex strides indices = Ok (dot indices strides).
Proof.
  intros Hlen Hb. unfold FlattenIndex.
  now rewrite FlattenIndex_loop_dot.
Qed.

(** States of two runs of a loop that stay related by [g]. *)
Lemma for_each_map {A S T : Type} (g : S -> T) (xs : list A)
    (f : A -> T -> result T) (f' : A -> S -> result S) (s : S) :
  (forall x s', f x (g s') = g <$> f' x s') ->
  for_each xs f (g s) = g <$> for_each xs f' s.
Proof.
  intros Hsim. revert s. induction xs as [|x xs IH]; intros s; [done|].
  cbn [for_each]. rewrite Hsim.
  destruct (f' x s) as [s'| | |]; cbn; auto.
Qed.

Lemma vec_set_cons_succ (z : N) (vec : list N) (i : N) (x : N) :
  vec_set (z :: vec) (N.succ i) x = cons z <$> vec_set vec i x.
Proof.
  unfold vec_set. rewrite N2Nat.inj_succ. cbn [length].
  destruct (decide (N.to_nat i < length vec)%nat).
  - now rewrite decide_True by lia.
  - now rewrite decide_False by lia.
Qed.

Lemma UnflattenIndex_loop_cons (s0 z : N) (strides indices : list N)
    (flat : N) :
  s0 ≠ 0 ->
  for_range (length (s0 :: strides)) (UnflattenIndex_step (s0 :: strides))
    (z :: indices, flat) =
  (fun st : list N * N => (flat / s0 :: fst st, snd st)) <$>
    for_range (length strides) (UnflattenIndex_step strides)
      (indices, flat mod s0).
Proof.
  intros Hs0. cbn [length]. rewrite for_range_S.
  assert (H0 : UnflattenIndex_step (s0 :: strides) 0 (z :: indices, flat) =
               Ok (flat / s0 :: indices, flat mod s0)).
  { unfold UnflattenIndex_step. rewrite vec_get_cons_0.
    cbn [mbind result_bind]. unfold size_div, size_rem.
    rewrite decide_False by done. cbn [mbind result_bind].
    change (vec_set (z :: indices) 0 (flat / s0))
      with (Ok (flat / s0 :: indices) : result (list N)).
    cbn [mbind result_bind]. rewrite decide_False by done.
    reflexivity. }
  rewrite H0. cbn [mbind result_bind].
  unfold for_range.
  apply (for_each_map
           (fun st : list N * N => (flat / s0 :: fst st, snd st))
           _ _ _ (indices, flat mod s0)).
  intros i [ind r]. unfold UnflattenIndex_step. cbn [fst snd].
  rewrite vec_get_cons_succ.
  destruct (vec_get strides i) as [s| | |]; cbn; try done.
  destruct (size_div r s) as [q| | |]; cbn; try done.
  rewrite vec_set_cons_succ.
  destruct (vec_set ind i q) as [ind'| | |]; cbn; try done.
  destruct (size_rem r s) as [r'| | |]; cbn; done.
Qed.

Lemma UnflattenIndex_loop_digits (strides : list N) :
  forall (indices : list N) (flat : N),
    Forall (fun s => s ≠ 0) strides ->
    length indices = length strides ->
    fst <$> for_range (length strides) (UnflattenIndex_step strides)
              (indices, flat) =
    Ok (digits strides flat).
Proof.
  induction strides as [|s strides IH]; intros indices flat Hnz Hlen.
  - destruct indices; done.
  - destruct indices as [|z indices]; [done|].
    inversion Hnz as [|? ? Hs Hrest]; subst.
    rewrite UnflattenIndex_loop_cons by done.
    specialize (IH indices (flat mod s) Hrest ltac:(now injection Hlen)).
    destruct (for_range (length strides) (UnflattenIndex_step strides)
                (indices, flat mod s)) as [[ind' r']| | |]; try done.
    cbn in IH |- *. now injection IH as ->.
Qed.

Lemma UnflattenIndex_digits (strides : list N) (flat : N) :
  Forall (fun s => s ≠ 0) strides ->
  UnflattenIndex strides flat = Ok (digits strides flat).
Proof.
  intros Hnz. unfold UnflattenIndex.
  pose proof (UnflattenIndex_loop_digits strides
                (replicate (length strides) 0) flat Hnz
                ltac:(now rewrite length_replicate)) as H.
  destruct (for_range (length strides) (UnflattenIndex_step strides)
              (replicate (length strides) 0, flat)) as [[ind r]| | |];
    done.
Qed.

(** C5, as amended. For every metadata whose strides are the canonical
    row-major strides of its shape, every multi-index [idx] with
    [idx[i] < shape[i]] in every dimension, and provided the number of
    elements [product(shape)] does not overflow [size_t], unflattening
    the flattened index gives back [idx]. *)
Theorem FlattenIndex_UnflattenIndex_roundtrip
    (m : TensorMetadata) (idx : list N) :
  canonical_strides m ->
  Forall2 N.lt idx (GetShape m) ->
  product (GetShape m) < SIZE_MODULUS ->
  (flat ← FlattenIndex (GetStrides m) idx;
   UnflattenIndex (GetStrides m) flat) = Ok idx.
Proof.
  intros Hc Hidx Hb. rewrite Hc.
  pose proof (Forall2_lt_pos _ _ Hidx) as Hpos.
  rewrite ComputeStrides_row_major by done.
  pose proof (dot_row_major_lt _ _ Hidx) as Hlt.
  rewrite FlattenIndex_dot.
  - cbn [mbind result_bind].
    rewrite UnflattenIndex_digits by now apply row_major_nonzero.
    now rewrite digits_row_major.
  - rewrite (Forall2_length _ _ _ Hidx).
    rewrite <- (ComputeStrides_row_major (GetShape m)) by done.
    now rewrite ComputeStrides_length.
  - lia.
Qed.

Lemma FlattenIndex_UnflattenIndex_roundtrip_witness :
  (flat ← FlattenIndex (GetStrides (TensorMetadata_of_shape [2; 3; 4] 0))
            [1; 2; 3];
   UnflattenIndex (GetStrides (TensorMetadata_of_shape [2; 3; 4] 0)) flat)
  = Ok [1; 2; 3].
Proof.
  apply (FlattenIndex_UnflattenIndex_roundtrip
           (TensorMetadata_of_shape [2; 3; 4] 0) [1; 2; 3]).
  - reflexivity.
  - repeat constructor.
  - reflexivity.
Defined.

(** C5 as stated fails once the element count overflows [size_t]: for the
    contiguous shape [{2^33, 2^32}] (canonical strides [{2^32, 1}]) the
    valid index [{2^32, 0}] flattens to [2^64], that is [0], and comes
    back as [{0, 0}]. *)
Lemma FlattenIndex_UnflattenIndex_overflow :
  IsContiguous (TensorMetadata_of_shape [2 ^ 33; 2 ^ 32] 0) = true
  /\ GetStrides (TensorMetadata_of_shape [2 ^ 33; 2 ^ 32] 0) = [2 ^ 32; 1]
  /\ canonical_strides (TensorMetadata_of_shape [2 ^ 33; 2 ^ 32] 0)
  /\ Forall2 N.lt [2 ^ 32; 0]
       (GetShape (TensorMetadata_of_shape [2 ^ 33; 2 ^ 32] 0))
  /\ FlattenIndex (GetStrides (TensorMetadata_of_shape [2 ^ 33; 2 ^ 32] 0))
       [2 ^ 32; 0] = Ok 0
  /\ UnflattenIndex (GetStrides (TensorMetadata_of_shape [2 ^ 33; 2 ^ 32] 0))
       0 = Ok [0; 0]
  /\ (flat ← FlattenIndex
               (GetStrides (TensorMetadata_of_shape [2 ^ 33; 2 ^ 32] 0))
               [2 ^ 32; 0];
      UnflattenIndex
        (GetStrides (TensorMetadata_of_shape [2 ^ 33; 2 ^ 32] 0)) flat)
     ≠ Ok [2 ^ 32; 0].
Proof.
  repeat split; try (vm_compute; reflexivity).
  - repeat constructor.
  - vm_compute. discriminate.
Qed.

(** ** Reshape *)

Lemma NextReshape_cases (m : TensorMetadata) (newShape : list N) :
  NextReshape m newShape =
  if decide (GetTotalSize m ≠ wrap (product newShape))
  then Throw (invalid_argument
    "New shape must have the same total size as the original tensor.")
  else Ok (TensorMetadata_of_shape newShape (GetOffset m)).
Proof.
  unfold NextReshape. cbv zeta.
  change (fold_left size_mul newShape 1) with (ComputeSize newShape).
  now rewrite ComputeSize_product.
Qed.







(** ** The contiguity flag *)

Lemma bind_Ok {A B : Type} (r : result A) (k : A -> result B) (b : B) :
  r ≫= k = Ok b -> exists a, r = Ok a /\ k a = Ok b.
Proof. destruct r as [a| | |]; try done. intros H. now exists a. Qed.

Lemma apply_view_built_by_constructor (op : view_op) (m m' : TensorMetadata) :
  apply_view op m = Ok m' ->
  (exists shape offset, m' = TensorMetadata_of_shape shape offset)
  \/ (exists shape stride offset,
        m' = TensorMetadata_of_strides shape stride offset).
Proof.
  destruct op as [s e|newShape|p| |axes|axes]; cbn [apply_view].
  - unfold NextSlice. destruct (decide _); [done|].
    intros H. apply bind_Ok in H as (st & _ & H).
    injection H as <-. left. eauto.
  - rewrite NextReshape_cases. destruct (decide _); [done|].
    intros H. injection H as <-. left. eauto.
  - unfold NextPermute. cbv zeta. destruct p as [|x p].
    + intros H. apply bind_Ok in H as (s1 & _ & H).
      apply bind_Ok in H as (s2 & _ & H). injection H as <-. right. eauto.
    + destruct (decide _); [done|].
      intros H. apply bind_Ok in H as (st & _ & H).
      injection H as <-. right. eauto.
  - unfold NextTranspose, NextPermute. cbv zeta.
    intros H. apply bind_Ok in H as (s1 & _ & H).
    apply bind_Ok in H as (s2 & _ & H). injection H as <-. right. eauto.
  - unfold NextSqueeze. destruct axes as [|a axes];
      intros H; apply bind_Ok in H as (st & _ & H);
      injection H as <-; left; eauto.
  - unfold NextUnsqueeze. cbv zeta.
    intros H. apply bind_Ok in H as (st & _ & H).
    injection H as <-. left. eauto.
Qed.

(** Neither constructor computes the flag: whatever a view
    transformation returns carries [true], whatever its strides. *)
Lemma apply_view_flag_true (op : view_op) (m m' : TensorMetadata) :
  apply_view op m = Ok m' -> IsContiguous m' = true.
Proof.
  intros H.
  apply apply_view_built_by_constructor in H
    as [(shape & offset & ->)|(shape & stride & offset & ->)]; done.
Qed.

(** C2. The contiguity flag is not recomputed for a view: permuting the
    [{2,3}] tensor by [{1,0}] returns the view with shape [{3,2}] and
    strides [{1,3}], which are not the canonical strides [{2,1}] of that
    shape, and [IsContiguous] still answers [true] for it, against its
    own description ("True if the tensor is contiguous, false
    otherwise"). *)
Lemma NextPermute_flag_not_recomputed :
  NextPermute (TensorMetadata_of_shape [2; 3] 0) [1; 0] =
  Ok (TensorMetadata_of_strides [3; 2] [1; 3] 0)
  /\ IsContiguous (TensorMetadata_of_strides [3; 2] [1; 3] 0) = true
  /\ GetStrides (TensorMetadata_of_strides [3; 2] [1; 3] 0) = [1; 3]
  /\ ComputeStrides (GetShape (TensorMetadata_of_strides [3; 2] [1; 3] 0))
     = [2; 1]
  /\ ~ canonical_strides (TensorMetadata_of_strides [3; 2] [1; 3] 0).
Proof. repeat split. discriminate. Qed.

(** ** Unvalidated permutations *)

(** C4. The custom branch of [NextPermute] checks the length of the
    permutation vector only. On a [{2,3}] tensor the duplicate [{0,0}] is
    accepted and yields shape [{2,2}] with strides [{3,3}]; the entry [5]
    of [{0,5}] is used to index the shape vector out of bounds. Neither
    call throws, although neither vector is a permutation of [{0,1}]. *)
Theorem NextPermute_accepts_non_bijection :
  ~ valid_permutation 2 [0; 0]
  /\ NextPermute (TensorMetadata_of_shape [2; 3] 0) [0; 0] =
     Ok (TensorMetadata_of_strides [2; 2] [3; 3] 0)
  /\ ~ valid_permutation 2 [0; 5]
  /\ NextPermute (TensorMetadata_of_shape [2; 3] 0) [0; 5] = Undefined.
Proof.
  split; [|split; [reflexivity|split; [|reflexivity]]].
  - intros (_ & Hnd & _). apply NoDup_cons in Hnd as [Hnin _].
    apply Hnin. left.
  - intros (_ & _ & Hall). apply Forall_cons in Hall as [_ Hall].
    apply Forall_cons in Hall as [H5 _]. cbn in H5. lia.
Qed.

(** C6 at rank 0. The only permutation of zero axes is the empty one,
    which [NextPermute] takes for the default transposition: the
    reversal of the empty shape vector underflows and the round trip
    has no defined result. *)
Theorem NextPermute_roundtrip_rank0_undefined :
  valid_permutation (length (GetShape (TensorMetadata_of_shape [] 0))) []
  /\ inverse_permutation [] = []
  /\ NextPermute (TensorMetadata_of_shape [] 0) [] = Undefined
  /\ (m1 ← NextPermute (TensorMetadata_of_shape [] 0) [];
      NextPermute m1 (inverse_permutation [])) = Undefined.
Proof.
  split; [|repeat split].
  split; [reflexivity|]. split; constructor.
Qed.

(** ** Squeeze *)

(** C7. With two axes the squeeze loop appends, for each listed axis,
    every dimension but that one, so [{1,3,1,4}] squeezed at [{0,2}]
    becomes [{3,1,4,1,3,4}] instead of [{3,4}]. The strides are those
    the constructor recomputes from the new shape: the view with shape
    [{3,1,2}] and strides [{1,3,3}] squeezed at axis 1 gets the strides
    [{2,1}], not the carried-over [{1,3}]. The offset is kept. *)
Theorem NextSqueeze_appends_per_axis :
  NextSqueeze (TensorMetadata_of_shape [1; 3; 1; 4] 0) [0; 2] =
  Ok (TensorMetadata_of_shape [3; 1; 4; 1; 3; 4] 0)
  /\ NextPermute (TensorMetadata_of_shape [2; 1; 3] 9) [2; 1; 0] =
     Ok (TensorMetadata_of_strides [3; 1; 2] [1; 3; 3] 9)
  /\ NextSqueeze (TensorMetadata_of_strides [3; 1; 2] [1; 3; 3] 9) [1] =
     Ok (TensorMetadata_of_shape [3; 2] 9)
  /\ GetStrides (TensorMetadata_of_shape [3; 2] 9) = [2; 1]
  /\ GetOffset (TensorMetadata_of_shape [3; 2] 9) = 9.
Proof. repeat split. Qed.

(** ** Slice *)

(** C1. On the [{4,5}] tensor (strides [{5,1}]) the slice from [{1,1}]
    to [{3,4}] has shape [{2,3}], but the collected strides are dropped:
    the result is built from the new shape and the unchanged offset, so
    its strides are the canonical [{3,1}] of [{2,3}] instead of [{5,1}],
    and its offset is the source's instead of the source's plus 6. *)
Theorem NextSlice_drops_strides_and_start (offset : N) :
  GetStrides (TensorMetadata_of_shape [4; 5] offset) = [5; 1]
  /\ NextSlice (TensorMetadata_of_shape [4; 5] offset) [1; 1] [3; 4] =
     Ok (TensorMetadata_of_shape [2; 3] offset)
  /\ GetShape (TensorMetadata_of_shape [2; 3] offset) = [2; 3]
  /\ GetStrides (TensorMetadata_of_shape [2; 3] offset) = [3; 1]
  /\ GetOffset (TensorMetadata_of_shape [2; 3] offset) = offset.
Proof. repeat split. Qed.

Section SliceLoop.
Variable m : TensorMetadata.
Variables startIndices endIndices : list N.
Hypothesis Hstrides : length (GetStrides m) = length (GetShape m).
Hypothesis Hlt : Forall2 N.lt startIndices endIndices.
Hypothesis Hle : Forall2 N.le endIndices (GetShape m).
Hypothesis Hsize : Forall (fun e => e < SIZE_MODULUS) endIndices.

End SliceLoop.


(** ** Squeezing a single axis *)

Lemma delete_take_snoc (shape : list N) (a k : nat) (x : N) :
  shape !! k = Some x ->
  delete a (take (S k) shape) =
  if decide (k = a) then delete a (take k shape)
  else delete a (take k shape) ++ [x].
Proof.
  intros Hk. pose proof (lookup_lt_Some _ _ _ Hk) as Hlt.
  rewrite (take_S_r _ _ _ Hk), !delete_take_drop.
  assert (Hlen : length (take k shape) = k) by (rewrite length_take; lia).
  destruct (decide (k = a)) as [->|Hne].
  - rewrite take_app_length' by done.
    rewrite (take_ge (take a shape)) by lia.
    rewrite !drop_ge by (rewrite ?length_app; simpl; lia).
    done.
  - destruct (decide (a < k)%nat) as [Ha|Ha].
    + rewrite take_app_le by lia. rewrite drop_app_le by lia.
      now rewrite app_assoc.
    + rewrite (take_ge (take k shape ++ [x]))
        by (rewrite length_app; simpl; lia).
      rewrite (take_ge (take k shape)) by lia.
      rewrite !drop_ge by (rewrite ?length_app; simpl; lia).
      now rewrite !app_nil_r.
Qed.



(** ** Adequacy of the fuel *)

(** The reversal never stops for lack of fuel: it either faults at once
    (empty vector) or finishes. *)
Lemma NextReverse_fuel (vec : list N) :
  N.of_nat (length vec) < SIZE_MODULUS -> NextReverse vec ≠ OutOfFuel.
Proof.
  intros Hb. destruct vec as [|x vec].
  - rewrite NextReverse_empty. discriminate.
  - rewrite NextReverse_rev; [discriminate|discriminate|exact Hb].
Qed.

(** ** The general lemmas at concrete inputs *)


Lemma NextPermute_inverse_restores_witness :
  (m1 ← NextPermute (TensorMetadata_of_shape [2; 3; 4] 0) [2; 0; 1];
   NextPermute m1 (inverse_permutation [2; 0; 1])) =
  Ok (TensorMetadata_of_strides [2; 3; 4] [12; 4; 1] 0).
Proof.
  apply (NextPermute_inverse_restores
           (TensorMetadata_of_shape [2; 3; 4] 0) [2; 0; 1]).
  - apply well_formed_of_shape. reflexivity.
  - discriminate.
  - split; [reflexivity|]. split; [|repeat constructor].
    apply (bool_decide_unpack _). vm_compute. exact I.
Defined.


(** ** Index mapping: fixed-rank forms, bounds and edge cases *)

(** The constexpr index functions over arrays of [n] entries agree with
    the runtime ones on vectors of [n] strides. *)
Theorem index_mapping_static_dynamic
    (n : nat) (strides indices : list N) (flatIndex : N) :
  length strides = n ->
  FlattenIndex_static n strides indices = FlattenIndex strides indices
  /\ UnflattenIndex_static n strides flatIndex =
     UnflattenIndex strides flatIndex.
Proof.
  intros <-. destruct strides as [|s strides]; [done|].
  unfold FlattenIndex_static, UnflattenIndex_static, FlattenIndex,
    UnflattenIndex. done.
Qed.

Lemma index_mapping_static_dynamic_witness :
  FlattenIndex_static 3 [12; 4; 1] [1; 2; 3] =
  FlattenIndex [12; 4; 1] [1; 2; 3]
  /\ UnflattenIndex_static 3 [12; 4; 1] 23 = UnflattenIndex [12; 4; 1] 23.
Proof.
  apply (index_mapping_static_dynamic 3 [12; 4; 1] [1; 2; 3] 23).
  reflexivity.
Defined.

Lemma FlattenIndex_loop_short (strides : list N) :
  forall (indices : list N) (acc : N),
    (length indices < length strides)%nat ->
    for_range (length strides) (FlattenIndex_step strides indices) acc =
    Undefined.
Proof.
  induction strides as [|s strides IH]; intros indices acc Hlen;
    [simpl in Hlen; lia|].
  destruct indices as [|x indices].
  - cbn [length]. rewrite for_range_S. reflexivity.
  - rewrite FlattenIndex_loop_cons. apply IH. simpl in Hlen. lia.
Qed.

Lemma FlattenIndex_loop_surplus (strides : list N) :
  forall (indices extra : list N) (acc : N),
    length indices = length strides ->
    for_range (length strides)
      (FlattenIndex_step strides (indices ++ extra)) acc =
    for_range (length strides) (FlattenIndex_step strides indices) acc.
Proof.
  induction strides as [|s strides IH]; intros indices extra acc Hlen.
  - reflexivity.
  - destruct indices as [|x indices]; [done|].
    cbn [app]. rewrite !FlattenIndex_loop_cons. apply IH.
    now injection Hlen.
Qed.

(** [FlattenIndex] reads exactly [strides.size()] indices: with fewer
    it indexes [indices] out of bounds; entries beyond that count are
    ignored. *)
Theorem FlattenIndex_reads_rank_indices
    (strides indices extra : list N) :
  ((length indices < length strides)%nat ->
   FlattenIndex strides indices = Undefined)
  /\ (length indices = length strides ->
      FlattenIndex strides (indices ++ extra) =
      FlattenIndex strides indices).
Proof.
  split; intros H; unfold FlattenIndex.
  - now apply FlattenIndex_loop_short.
  - now apply FlattenIndex_loop_surplus.
Qed.

Lemma FlattenIndex_reads_rank_indices_witness :
  FlattenIndex [12; 4; 1] [1; 2] = Undefined
  /\ FlattenIndex [12; 4; 1] ([1; 2; 3] ++ [9; 9]) =
     FlattenIndex [12; 4; 1] [1; 2; 3].
Proof.
  split.
  - apply (proj1 (FlattenIndex_reads_rank_indices [12; 4; 1] [1; 2] [])).
    simpl. lia.
  - apply (proj2 (FlattenIndex_reads_rank_indices
                    [12; 4; 1] [1; 2; 3] [9; 9])).
    reflexivity.
Defined.

Lemma UnflattenIndex_loop_zero (strides : list N) :
  forall (indices : list N) (flat : N),
    length indices = length strides ->
    Exists (fun s => s = 0) strides ->
    for_range (length strides) (UnflattenIndex_step strides)
      (indices, flat) = Undefined.
Proof.
  induction strides as [|s strides IH]; intros indices flat Hlen Hex;
    [now apply Exists_nil in Hex|].
  destruct indices as [|z indices]; [done|].
  destruct (decide (s = 0)) as [->|Hs].
  - cbn [length]. rewrite for_range_S. reflexivity.
  - rewrite UnflattenIndex_loop_cons by done.
    apply Exists_cons in Hex as [Hex|Hex]; [done|].
    rewrite IH; [done|now injection Hlen|done].
Qed.

Lemma digits_length (strides : list N) (flat : N) :
  length (digits strides flat) = length strides.
Proof.
  revert flat. induction strides as [|s strides IH]; intros flat; [done|].
  cbn [digits length]. now rewrite IH.
Qed.

(** [UnflattenIndex] divides by every stride in turn: with all strides
    non-zero it returns one quotient per stride; a zero stride anywhere
    makes it divide by zero. *)
Theorem UnflattenIndex_zero_stride (strides : list N) (flat : N) :
  (Forall (fun s => s ≠ 0) strides ->
   UnflattenIndex strides flat = Ok (digits strides flat)
   /\ length (digits strides flat) = length strides)
  /\ (Exists (fun s => s = 0) strides ->
      UnflattenIndex strides flat = Undefined).
Proof.
  split.
  - intros Hnz. split; [now apply UnflattenIndex_digits|].
    apply digits_length.
  - intros Hex. unfold UnflattenIndex.
    rewrite UnflattenIndex_loop_zero; [done| |done].
    now rewrite length_replicate.
Qed.

Lemma UnflattenIndex_zero_stride_witness :
  UnflattenIndex [12; 4; 1] 23 = Ok (digits [12; 4; 1] 23)
  /\ UnflattenIndex [4; 0; 1] 23 = Undefined.
Proof.
  split.
  - apply (proj1 (UnflattenIndex_zero_stride [12; 4; 1] 23)).
    repeat constructor; discriminate.
  - apply (proj2 (UnflattenIndex_zero_stride [4; 0; 1] 23)).
    right. now left.
Defined.

(** A dimension of extent 0 anywhere but in front gives the canonical
    strides a zero entry, so [UnflattenIndex] on the metadata of such a
    shape divides by zero. *)
Theorem UnflattenIndex_zero_extent
    (shape : list N) (offset : N) (j : nat) (flat : N) :
  shape !! S j = Some 0 ->
  GetStrides (TensorMetadata_of_shape shape offset) !! j = Some 0
  /\ UnflattenIndex (GetStrides (TensorMetadata_of_shape shape offset)) flat
     = Undefined.
Proof.
  intros Hj. pose proof (lookup_lt_Some _ _ _ Hj) as Hlt.
  assert (H0 : ComputeStrides shape !! j = Some 0).
  { rewrite (ComputeStrides_lookup shape (length shape - S j)) by lia.
    rewrite (drop_S _ _ _ Hj), product_cons. reflexivity. }
  split; [exact H0|].
  change (GetStrides (TensorMetadata_of_shape shape offset))
    with (ComputeStrides shape).
  unfold UnflattenIndex.
  rewrite UnflattenIndex_loop_zero; [done|now rewrite length_replicate|].
  apply Exists_exists. exists 0. split; [|done].
  eapply list_elem_of_lookup_2. exact H0.
Qed.

Lemma UnflattenIndex_zero_extent_witness :
  UnflattenIndex (GetStrides (TensorMetadata_of_shape [2; 0; 3] 0)) 0
  = Undefined.
Proof.
  apply (UnflattenIndex_zero_extent [2; 0; 3] 0 0%nat 0). reflexivity.
Defined.

Lemma digits_row_major_lt (shape : list N) :
  forall flat : N,
    Forall (fun d => 0 < d) shape -> flat < product shape ->
    Forall2 N.lt (digits (row_major shape) flat) shape.
Proof.
  induction shape as [|d rest IH]; intros flat Hpos Hlt; [constructor|].
  apply Forall_cons in Hpos as [Hd Hrest].
  pose proof (product_pos rest Hrest) as Hp.
  rewrite product_cons in Hlt.
  cbn [row_major digits]. constructor.
  - apply N.Div0.div_lt_upper_bound; lia.
  - apply IH; [done|]. apply N.mod_lt. lia.
Qed.

Lemma dot_digits_row_major (shape : list N) :
  forall flat : N,
    Forall (fun d => 0 < d) shape -> flat < product shape ->
    dot (digits (row_major shape) flat) (row_major shape) = flat.
Proof.
  induction shape as [|d rest IH]; intros flat Hpos Hlt.
  - rewrite product_nil in Hlt. cbn. lia.
  - apply Forall_cons in Hpos as [Hd Hrest].
    pose proof (product_pos rest Hrest) as Hp.
    cbn [row_major digits dot].
    rewrite IH by (done || (apply N.mod_lt; lia)).
    rewrite (N.div_mod' flat (product rest)) at 3. lia.
Qed.

(** The other direction of the round trip. For canonical strides of a
    shape with positive extents whose element count fits [size_t], every
    flat offset below the element count unflattens to a multi-index that
    is inside the shape and flattens back to the same offset. *)
Theorem UnflattenIndex_FlattenIndex_roundtrip
    (m : TensorMetadata) (flat : N) :
  canonical_strides m ->
  Forall (fun d => 0 < d) (GetShape m) ->
  product (GetShape m) < SIZE_MODULUS ->
  flat < product (GetShape m) ->
  exists idx : list N,
    UnflattenIndex (GetStrides m) flat = Ok idx
    /\ Forall2 N.lt idx (GetShape m)
    /\ FlattenIndex (GetStrides m) idx = Ok flat.
Proof.
  intros Hc Hpos Hb Hlt. rewrite Hc.
  rewrite ComputeStrides_row_major by done.
  exists (digits (row_major (GetShape m)) flat).
  pose proof (digits_row_major_lt _ flat Hpos Hlt) as Hidx.
  split; [|split; [done|]].
  - apply UnflattenIndex_digits. now apply row_major_nonzero.
  - rewrite FlattenIndex_dot.
    + now rewrite dot_digits_row_major.
    + now rewrite digits_length.
    + rewrite dot_digits_row_major by done. lia.
Qed.

Lemma UnflattenIndex_FlattenIndex_roundtrip_witness :
  exists idx : list N,
    UnflattenIndex (GetStrides (TensorMetadata_of_shape [2; 3; 4] 0)) 17
    = Ok idx
    /\ Forall2 N.lt idx (GetShape (TensorMetadata_of_shape [2; 3; 4] 0))
    /\ FlattenIndex (GetStrides (TensorMetadata_of_shape [2; 3; 4] 0)) idx
       = Ok 17.
Proof.
  apply (UnflattenIndex_FlattenIndex_roundtrip
           (TensorMetadata_of_shape [2; 3; 4] 0) 17).
  - reflexivity.
  - repeat constructor.
  - reflexivity.
  - reflexivity.
Defined.

(** A multi-index inside the shape addresses an element inside the
    buffer: for canonical strides and an element count that fits
    [size_t], [FlattenIndex] returns [Σ idx[i] * strides[i]] without
    wrap-around, and that offset is below the element count. *)
Theorem FlattenIndex_within_extent (m : TensorMetadata) (idx : list N) :
  canonical_strides m ->
  Forall2 N.lt idx (GetShape m) ->
  product (GetShape m) < SIZE_MODULUS ->
  FlattenIndex (GetStrides m) idx = Ok (dot idx (GetStrides m))
  /\ dot idx (GetStrides m) < product (GetShape m).
Proof.
  intros Hc Hidx Hb. rewrite Hc.
  pose proof (Forall2_lt_pos _ _ Hidx) as Hpos.
  rewrite ComputeStrides_row_major by done.
  pose proof (dot_row_major_lt _ _ Hidx) as Hlt.
  split; [|done]. apply FlattenIndex_dot; [|lia].
  rewrite (Forall2_length _ _ _ Hidx).
  rewrite <- (ComputeStrides_row_major (GetShape m)) by done.
  now rewrite ComputeStrides_length.
Qed.

Lemma FlattenIndex_within_extent_witness :
  FlattenIndex (GetStrides (TensorMetadata_of_shape [2; 3; 4] 0)) [1; 2; 3]
  = Ok (dot [1; 2; 3] (GetStrides (TensorMetadata_of_shape [2; 3; 4] 0)))
  /\ dot [1; 2; 3] (GetStrides (TensorMetadata_of_shape [2; 3; 4] 0))
     < product (GetShape (TensorMetadata_of_shape [2; 3; 4] 0)).
Proof.
  apply (FlattenIndex_within_extent
           (TensorMetadata_of_shape [2; 3; 4] 0) [1; 2; 3]).
  - reflexivity.
  - repeat constructor.
  - reflexivity.
Defined.

(** ** Slice: rejected bounds and the full range *)

Section SliceErrors.
Variable m : TensorMetadata.
Variables startIndices endIndices : list N.
Hypothesis Hstrides : length (GetStrides m) = length (GetShape m).
Hypothesis Hstart : length startIndices = length (GetShape m).
Hypothesis Hend : length endIndices = length (GetShape m).

Lemma NextSlice_step_outcome (i : nat) (st : list N * list N) :
  (i < length (GetShape m))%nat ->
  exists s e d,
    startIndices !! i = Some s /\ endIndices !! i = Some e
    /\ GetShape m !! i = Some d
    /\ ((slice_bounds_ok s e d
         /\ exists st', NextSlice_step m startIndices endIndices
                          (N.of_nat i) st = Ok st')
        \/ (~ slice_bounds_ok s e d
            /\ NextSlice_step m startIndices endIndices (N.of_nat i) st =
               Throw (out_of_range
                        "Start or end indices are out of bounds."))).
Proof.
  intros Hi.
  destruct (lookup_lt_is_Some_2 startIndices i ltac:(lia)) as [s Hs].
  destruct (lookup_lt_is_Some_2 endIndices i ltac:(lia)) as [e He].
  destruct (lookup_lt_is_Some_2 (GetShape m) i ltac:(lia)) as [d Hd].
  destruct (lookup_lt_is_Some_2 (GetStrides m) i ltac:(lia)) as [w Hw].
  exists s, e, d. repeat (split; [done|]).
  unfold NextSlice_step. destruct st as [newShape newStrides].
  rewrite (vec_get_lookup _ _ _ Hs), (vec_get_lookup _ _ _ He),
    (vec_get_lookup _ _ _ Hd), (vec_get_lookup _ _ _ Hw).
  cbn [mbind result_bind mret result_ret]. unfold slice_bounds_ok.
  destruct ((e <=? s) || (d <=? s) || (d <? e)) eqn:Hc.
  - right. split; [|done]. intros [H1 H2].
    apply orb_true_iff in Hc as [Hc|Hc];
      [apply orb_true_iff in Hc as [Hc|Hc]|].
    + apply N.leb_le in Hc. lia.
    + apply N.leb_le in Hc. lia.
    + apply N.ltb_lt in Hc. lia.
  - left. apply orb_false_iff in Hc as [Hc H3].
    apply orb_false_iff in Hc as [H1 H2].
    apply N.leb_gt in H1. apply N.ltb_ge in H3. split; [lia|eauto].
Qed.

(** The loop either runs through or stops with the bounds error, and it
    runs through only when every dimension visited passed the test. *)
Lemma NextSlice_loop_outcome (n : nat) :
  (n <= length (GetShape m))%nat ->
  (exists st,
      for_range n (NextSlice_step m startIndices endIndices) ([], []) = Ok st
      /\ forall i s e d, (i < n)%nat ->
           startIndices !! i = Some s -> endIndices !! i = Some e ->
           GetShape m !! i = Some d -> slice_bounds_ok s e d)
  \/ for_range n (NextSlice_step m startIndices endIndices) ([], []) =
     Throw (out_of_range "Start or end indices are out of bounds.").
Proof.
  induction n as [|n IH]; intros Hn.
  - left. exists ([], []). split; [done|]. intros; lia.
  - rewrite for_range_snoc.
    destruct IH as [(st & -> & Hall)| ->]; [lia| |now right].
    cbn [mbind result_bind].
    destruct (NextSlice_step_outcome n st ltac:(lia))
      as (s & e & d & Hs & He & Hd & [(Hok & st' & ->)|(Hbad & ->)]);
      [|now right].
    left. exists st'. split; [done|].
    intros i s' e' d' Hi Hs' He' Hd'.
    destruct (decide (i = n)) as [->|Hne].
    + congruence.
    + apply (Hall i); [lia|done..].
Qed.
End SliceErrors.

(** [NextSlice] throws [std::invalid_argument] when either index vector
    has another length than the shape, and [std::out_of_range] when some
    dimension has [start >= end] or [end > shape] (a dimension of extent
    0 can therefore never be sliced). *)
Theorem NextSlice_rejects
    (m : TensorMetadata) (startIndices endIndices : list N) :
  (length startIndices ≠ length (GetShape m)
   \/ length endIndices ≠ length (GetShape m) ->
   NextSlice m startIndices endIndices =
   Throw (invalid_argument
            "Start and end indices must match the tensor's rank."))
  /\ (length (GetStrides m) = length (GetShape m) ->
      length startIndices = length (GetShape m) ->
      length endIndices = length (GetShape m) ->
      forall (i : nat) (s e d : N),
        startIndices !! i = Some s -> endIndices !! i = Some e ->
        GetShape m !! i = Some d -> ~ slice_bounds_ok s e d ->
        NextSlice m startIndices endIndices =
        Throw (out_of_range "Start or end indices are out of bounds.")).
Proof.
  split.
  - intros H. unfold NextSlice. now rewrite decide_True.
  - intros Hw Hs He i s e d His Hie Hid Hbad. unfold NextSlice.
    rewrite decide_False by (intros [H|H]; now apply H).
    destruct (NextSlice_loop_outcome m startIndices endIndices Hw Hs He
                (length (GetShape m)) ltac:(lia))
      as [(st & _ & Hall)| ->]; [|done].
    exfalso. apply Hbad. apply (Hall i s e d); try done.
    now apply (lookup_lt_Some _ _ _ Hid).
Qed.

Lemma NextSlice_rejects_witness :
  NextSlice (TensorMetadata_of_shape [4; 5] 0) [1] [3; 4] =
  Throw (invalid_argument
           "Start and end indices must match the tensor's rank.")
  /\ NextSlice (TensorMetadata_of_shape [4; 0] 0) [1; 0] [3; 0] =
     Throw (out_of_range "Start or end indices are out of bounds.").
Proof.
  split.
  - apply (proj1 (NextSlice_rejects
                    (TensorMetadata_of_shape [4; 5] 0) [1] [3; 4])).
    left. discriminate.
  - apply (proj2 (NextSlice_rejects
                    (TensorMetadata_of_shape [4; 0] 0) [1; 0] [3; 0])
             eq_refl eq_refl eq_refl 1%nat 0 0 0 eq_refl eq_refl eq_refl).
    intros [H _]. discriminate H.
Defined.





(** ** Reshape composes *)

(** A successful reshape keeps the total size, so a second reshape
    behaves as if applied to the source directly: the intermediate shape
    leaves no trace. *)
Theorem NextReshape_compose
    (m m1 : TensorMetadata) (shape1 shape2 : list N) :
  NextReshape m shape1 = Ok m1 ->
  GetTotalSize m1 = GetTotalSize m
  /\ NextReshape m1 shape2 = NextReshape m shape2.
Proof.
  intros H. rewrite NextReshape_cases in H.
  destruct (decide (GetTotalSize m ≠ wrap (product shape1)))
    as [Hne|Heq]; [done|].
  apply dec_stable in Heq. injection H as <-.
  assert (Ht : GetTotalSize
                 (TensorMetadata_of_shape shape1 (GetOffset m)) =
               GetTotalSize m).
  { rewrite Heq. apply ComputeSize_product. }
  split; [done|]. rewrite !NextReshape_cases, Ht. done.
Qed.

Lemma NextReshape_compose_witness :
  GetTotalSize (TensorMetadata_of_shape [6; 4] 0) =
  GetTotalSize (TensorMetadata_of_shape [2; 3; 4] 0)
  /\ NextReshape (TensorMetadata_of_shape [6; 4] 0) [24] =
     NextReshape (TensorMetadata_of_shape [2; 3; 4] 0) [24].
Proof.
  apply (NextReshape_compose (TensorMetadata_of_shape [2; 3; 4] 0)
           (TensorMetadata_of_shape [6; 4] 0) [6; 4] [24]).
  reflexivity.
Defined.

(** ** Unsqueeze *)

Lemma NextSqueeze_unfold (m : TensorMetadata) (axes : list N) :
  NextSqueeze m axes =
  match axes with
  | _ :: _ =>
      newShape ← for_each axes (squeeze_axis_step m) [];
      mret (TensorMetadata_of_shape newShape (GetOffset m))
  | [] =>
      newShape ← for_range (N.to_nat (GetRank m)) (squeeze_all_step m) [];
      mret (TensorMetadata_of_shape newShape (GetOffset m))
  end.
Proof. reflexivity. Qed.

Lemma NextUnsqueeze_unfold (m : TensorMetadata) (axes : list N) :
  NextUnsqueeze m axes =
  (newShape ← for_each axes unsqueeze_step (GetShape m);
   mret (TensorMetadata_of_shape newShape (GetOffset m))).
Proof. reflexivity. Qed.

Lemma product_app (l1 l2 : list N) :
  product (l1 ++ l2) = product l1 * product l2.
Proof.
  induction l1 as [|d l1 IH]; cbn [app].
  - rewrite product_nil. lia.
  - rewrite !product_cons, IH. lia.
Qed.

Lemma vec_insert_length (vec : list N) (pos x : N) :
  length (vec_insert vec pos x) = S (length vec).
Proof.
  unfold vec_insert. rewrite length_app. cbn [length].
  rewrite length_take, length_drop. lia.
Qed.




Lemma unsqueeze_loop_ok (axes : list N) :
  forall shape : list N,
    (forall (k : nat) (a : N), axes !! k = Some a ->
       a <= N.of_nat (length shape + k)) ->
    for_each axes unsqueeze_step shape = Ok (unsqueezed shape axes).
Proof.
  induction axes as [|a axes IH]; intros shape Hall; [done|].
  cbn [for_each].
  pose proof (Hall 0%nat a eq_refl) as Ha.
  assert (H0 : unsqueeze_step a shape = Ok (vec_insert shape a 1)).
  { unfold unsqueeze_step.
    now replace (N.of_nat (length shape) <? a) with false
      by (symmetry; apply N.ltb_ge; lia). }
  rewrite H0. cbn [mbind result_bind]. rewrite IH; [done|].
  intros k a' Hk. rewrite vec_insert_length.
  specialize (Hall (S k) a' Hk). lia.
Qed.

Lemma unsqueeze_loop_throw (axes : list N) :
  forall (shape : list N) (k : nat) (a : N),
    axes !! k = Some a -> N.of_nat (length shape + k) < a ->
    for_each axes unsqueeze_step shape =
    Throw (invalid_argument "Axis out of bounds.").
Proof.
  induction axes as [|a0 axes IH]; intros shape k a Hk Ha; [done|].
  cbn [for_each].
  destruct (N.of_nat (length shape) <? a0) eqn:Hc.
  { unfold unsqueeze_step. now rewrite Hc. }
  assert (H0 : unsqueeze_step a0 shape = Ok (vec_insert shape a0 1))
    by (unfold unsqueeze_step; now rewrite Hc).
  rewrite H0. apply N.ltb_ge in Hc. cbn [mbind result_bind].
  destruct k as [|k].
  - injection Hk as ->. lia.
  - apply (IH _ k a Hk). rewrite vec_insert_length. lia.
Qed.



(** [NextUnsqueeze] throws [std::invalid_argument] as soon as a listed
    position exceeds the rank reached at that point; positions are
    checked against the growing shape, so [{0, 3}] is accepted on rank 2
    and [{3, 0}] is not. *)
Theorem NextUnsqueeze_rejects
    (m : TensorMetadata) (axes : list N) (k : nat) (a : N) :
  axes !! k = Some a ->
  N.of_nat (length (GetShape m) + k) < a ->
  NextUnsqueeze m axes = Throw (invalid_argument "Axis out of bounds.").
Proof.
  intros Hk Ha. rewrite NextUnsqueeze_unfold.
  now rewrite (unsqueeze_loop_throw axes (GetShape m) k a Hk Ha).
Qed.

Lemma NextUnsqueeze_rejects_witness :
  NextUnsqueeze (TensorMetadata_of_shape [3; 4] 0) [3; 0] =
  Throw (invalid_argument "Axis out of bounds.").
Proof.
  apply (NextUnsqueeze_rejects (TensorMetadata_of_shape [3; 4] 0)
           [3; 0] 0%nat 3).
  - reflexivity.
  - reflexivity.
Defined.

(** ** Squeeze without listed axes *)

Lemma squeeze_all_loop (m : TensorMetadata) (k : nat) :
  (k <= length (GetShape m))%nat ->
  for_range k (squeeze_all_step m) [] =
  Ok (filter (fun d => d ≠ 1) (take k (GetShape m))).
Proof.
  induction k as [|k IH]; intros Hk; [done|].
  rewrite for_range_snoc, IH by lia. cbn [mbind result_bind].
  destruct (lookup_lt_is_Some_2 (GetShape m) k ltac:(lia)) as [d Hd].
  unfold squeeze_all_step. rewrite (vec_get_lookup _ _ _ Hd).
  cbn [mbind result_bind mret result_ret].
  rewrite (take_S_r _ _ _ Hd), filter_app.
  destruct (decide (d = 1)) as [->|Hne].
  - rewrite filter_cons_False by (intros H; now apply H).
    now rewrite filter_nil, app_nil_r.
  - now rewrite filter_cons_True, filter_nil by done.
Qed.

Lemma NextSqueeze_no_axes (m : TensorMetadata) :
  GetRank m = N.of_nat (length (GetShape m)) ->
  NextSqueeze m [] =
  Ok (TensorMetadata_of_shape (filter (fun d => d ≠ 1) (GetShape m))
        (GetOffset m)).
Proof.
  intros Hr. rewrite NextSqueeze_unfold, Hr, Nat2N.id.
  rewrite squeeze_all_loop by lia. cbn [mbind result_bind mret result_ret].
  now rewrite take_ge by lia.
Qed.

Lemma product_filter_units (shape : list N) :
  product (filter (fun d => d ≠ 1) shape) = product shape.
Proof.
  induction shape as [|d shape IH]; [done|].
  destruct (decide (d = 1)) as [->|Hne].
  - rewrite filter_cons_False by (intros H; now apply H).
    rewrite product_cons, IH. lia.
  - rewrite filter_cons_True by done. now rewrite !product_cons, IH.
Qed.

Lemma filter_units_idemp (shape : list N) :
  filter (fun d => d ≠ 1) (filter (fun d => d ≠ 1) shape) =
  filter (fun d => d ≠ 1) shape.
Proof.
  induction shape as [|d shape IH]; [done|].
  destruct (decide (d = 1)) as [->|Hne].
  - now rewrite filter_cons_False by (intros H; now apply H).
  - rewrite filter_cons_True by done.
    rewrite filter_cons_True by done. now rewrite IH.
Qed.

Lemma filter_units_vec_insert (shape : list N) (pos : N) :
  filter (fun d => d ≠ 1) (vec_insert shape pos 1) =
  filter (fun d => d ≠ 1) shape.
Proof.
  unfold vec_insert. rewrite filter_app.
  rewrite filter_cons_False by (intros H; now apply H).
  rewrite <- filter_app. now rewrite take_drop.
Qed.

Lemma filter_units_unsqueezed (axes : list N) :
  forall shape : list N,
    filter (fun d => d ≠ 1) (unsqueezed shape axes) =
    filter (fun d => d ≠ 1) shape.
Proof.
  induction axes as [|a axes IH]; intros shape; cbn; [done|].
  fold (unsqueezed (vec_insert shape a 1) axes).
  now rewrite IH, filter_units_vec_insert.
Qed.

(** Without listed axes [NextSqueeze] drops every dimension of extent
    1 and keeps the others in order: no extent 1 is left, and the total
    size and the offset are those of the source. *)
Theorem NextSqueeze_drops_unit_extents (m : TensorMetadata) :
  GetRank m = N.of_nat (length (GetShape m)) ->
  exists m' : TensorMetadata,
    NextSqueeze m [] = Ok m'
    /\ GetShape m' = filter (fun d => d ≠ 1) (GetShape m)
    /\ (1 ∉ GetShape m')
    /\ GetTotalSize m' = ComputeSize (GetShape m)
    /\ GetOffset m' = GetOffset m.
Proof.
  intros Hr. eexists. split; [now apply NextSqueeze_no_axes|].
  split; [done|]. split; [|split; [|done]].
  - cbn. intros H. apply list_elem_of_filter in H as [H _]. now apply H.
  - unfold GetTotalSize. cbn.
    now rewrite !ComputeSize_product, product_filter_units.
Qed.

Lemma NextSqueeze_drops_unit_extents_witness :
  exists m' : TensorMetadata,
    NextSqueeze (TensorMetadata_of_shape [1; 3; 1; 4] 2) [] = Ok m'
    /\ GetShape m' =
       filter (fun d => d ≠ 1)
         (GetShape (TensorMetadata_of_shape [1; 3; 1; 4] 2))
    /\ (1 ∉ GetShape m')
    /\ GetTotalSize m' =
       ComputeSize (GetShape (TensorMetadata_of_shape [1; 3; 1; 4] 2))
    /\ GetOffset m' = GetOffset (TensorMetadata_of_shape [1; 3; 1; 4] 2).
Proof.
  apply (NextSqueeze_drops_unit_extents
           (TensorMetadata_of_shape [1; 3; 1; 4] 2)).
  reflexivity.
Defined.

(** Squeezing without axes is idempotent, and it undoes any accepted
    [NextUnsqueeze]: unsqueezing first gives the same result as
    squeezing the source directly. *)
Theorem NextSqueeze_all_absorbs (m : TensorMetadata) (axes : list N) :
  GetRank m = N.of_nat (length (GetShape m)) ->
  (forall (k : nat) (a : N), axes !! k = Some a ->
     a <= N.of_nat (length (GetShape m) + k)) ->
  (m1 ← NextSqueeze m []; NextSqueeze m1 []) = NextSqueeze m []
  /\ (m1 ← NextUnsqueeze m axes; NextSqueeze m1 []) = NextSqueeze m [].
Proof.
  intros Hr Hall. rewrite (NextSqueeze_no_axes m Hr). split.
  - cbn [mbind result_bind]. rewrite NextSqueeze_no_axes by done.
    cbn. unfold GetShape, GetOffset. cbn.
    now rewrite filter_units_idemp.
  - rewrite NextUnsqueeze_unfold.
    rewrite (unsqueeze_loop_ok axes (GetShape m) Hall).
    cbn [mbind result_bind mret result_ret].
    rewrite NextSqueeze_no_axes by done.
    cbn. unfold GetShape, GetOffset. cbn.
    now rewrite filter_units_unsqueezed.
Qed.

Lemma NextSqueeze_all_absorbs_witness :
  (m1 ← NextSqueeze (TensorMetadata_of_shape [1; 3; 1; 4] 0) [];
   NextSqueeze m1 []) =
  NextSqueeze (TensorMetadata_of_shape [1; 3; 1; 4] 0) []
  /\ (m1 ← NextUnsqueeze (TensorMetadata_of_shape [1; 3; 1; 4] 0) [0; 2];
      NextSqueeze m1 []) =
     NextSqueeze (TensorMetadata_of_shape [1; 3; 1; 4] 0) [].
Proof.
  apply (NextSqueeze_all_absorbs
           (TensorMetadata_of_shape [1; 3; 1; 4] 0) [0; 2]).
  - reflexivity.
  - intros [|[|k]] a H; simpl in H; try discriminate;
      injection H as <-; simpl; lia.
Defined.

(** ** Squeeze with listed axes *)

Lemma squeeze_copy_loop_acc (m : TensorMetadata) (axis : N)
    (acc : list N) (k : nat) :
  (k <= length (GetShape m))%nat ->
  for_range k (squeeze_copy_step m axis) acc =
  Ok (acc ++ delete (N.to_nat axis) (take k (GetShape m))).
Proof.
  induction k as [|k IH]; intros Hk.
  - cbn. now rewrite app_nil_r.
  - rewrite for_range_snoc, IH by lia. cbn [mbind result_bind].
    destruct (lookup_lt_is_Some_2 (GetShape m) k ltac:(lia)) as [x Hx].
    rewrite (delete_take_snoc _ _ _ _ Hx). unfold squeeze_copy_step.
    destruct (decide (N.of_nat k = axis)) as [<-|Hne].
    + now rewrite Nat2N.id, decide_True.
    + rewrite decide_False by lia.
      rewrite (vec_get_lookup _ _ _ Hx).
      cbn [mbind result_bind mret result_ret]. now rewrite app_assoc.
Qed.

Section SqueezeAxes.
Variable m : TensorMetadata.
Hypothesis Hrank : GetRank m = N.of_nat (length (GetShape m)).

Lemma squeeze_axis_step_ok (axis : N) (acc : list N) :
  squeezable (GetShape m) axis ->
  squeeze_axis_step m axis acc =
  Ok (acc ++ delete (N.to_nat axis) (GetShape m)).
Proof.
  intros Hax. pose proof (lookup_lt_Some _ _ _ Hax) as Hlt.
  unfold squeeze_axis_step.
  replace (GetRank m <=? axis) with false
    by (symmetry; apply N.leb_gt; rewrite Hrank; lia).
  assert (Hget : vec_get (GetShape m) axis = Ok 1)
    by (unfold vec_get; now rewrite Hax).
  rewrite Hget. cbn [mbind result_bind].
  rewrite decide_False by (intros H; now apply H).
  rewrite Hrank, Nat2N.id.
  rewrite (squeeze_copy_loop_acc m axis acc (length (GetShape m))) by lia.
  now rewrite take_ge by lia.
Qed.

Lemma squeeze_axis_step_out_of_bounds (axis : N) (acc : list N) :
  GetRank m <= axis ->
  squeeze_axis_step m axis acc =
  Throw (invalid_argument "Axis out of bounds.").
Proof.
  intros Hc. unfold squeeze_axis_step.
  now replace (GetRank m <=? axis) with true
    by (symmetry; now apply N.leb_le).
Qed.

Lemma squeeze_axis_step_not_unit (axis d : N) (acc : list N) :
  GetShape m !! N.to_nat axis = Some d -> d ≠ 1 ->
  squeeze_axis_step m axis acc =
  Throw (invalid_argument "Cannot squeeze axis that is not of size 1.").
Proof.
  intros Hd Hne. pose proof (lookup_lt_Some _ _ _ Hd) as Hlt.
  unfold squeeze_axis_step.
  replace (GetRank m <=? axis) with false
    by (symmetry; apply N.leb_gt; rewrite Hrank; lia).
  assert (Hget : vec_get (GetShape m) axis = Ok d)
    by (unfold vec_get; now rewrite Hd).
  rewrite Hget. cbn [mbind result_bind].
  now rewrite decide_True.
Qed.

Lemma not_squeezable_cases (axis : N) :
  ~ squeezable (GetShape m) axis ->
  GetRank m <= axis
  \/ exists d : N, GetShape m !! N.to_nat axis = Some d /\ d ≠ 1.
Proof.
  intros Hbad. destruct (GetShape m !! N.to_nat axis) as [d|] eqn:Hd.
  - right. exists d. split; [done|]. intros ->. now apply Hbad.
  - left. apply lookup_ge_None in Hd. rewrite Hrank. lia.
Qed.

Lemma squeeze_axes_loop_ok (axes : list N) :
  forall acc : list N,
    Forall (squeezable (GetShape m)) axes ->
    for_each axes (squeeze_axis_step m) acc =
    Ok (acc ++ squeezed_per_axis (GetShape m) axes).
Proof.
  induction axes as [|a axes IH]; intros acc Hall.
  - cbn. now rewrite app_nil_r.
  - apply Forall_cons in Hall as [Ha Hall].
    cbn [for_each]. rewrite squeeze_axis_step_ok by done.
    cbn [mbind result_bind]. rewrite IH by done.
    unfold squeezed_per_axis. cbn [flat_map]. now rewrite app_assoc.
Qed.

Lemma squeeze_axes_loop_throw (good rest : list N) (axis : N) (e : exn) :
  forall acc : list N,
    Forall (squeezable (GetShape m)) good ->
    (forall acc' : list N, squeeze_axis_step m axis acc' = Throw e) ->
    for_each (good ++ axis :: rest) (squeeze_axis_step m) acc = Throw e.
Proof.
  intros acc Hall Hstep.
  rewrite for_each_app, squeeze_axes_loop_ok by done.
  cbn [mbind result_bind for_each]. now rewrite Hstep.
Qed.
End SqueezeAxes.

(** With listed axes that are all inside the rank and of extent 1,
    [NextSqueeze] returns, for each listed axis in turn, the whole shape
    without that axis, one copy after the other: the new rank is the
    number of listed axes times the old rank less one. *)
Theorem NextSqueeze_listed_axes (m : TensorMetadata) (axes : list N) :
  GetRank m = N.of_nat (length (GetShape m)) ->
  axes ≠ [] ->
  Forall (squeezable (GetShape m)) axes ->
  NextSqueeze m axes =
  Ok (TensorMetadata_of_shape (squeezed_per_axis (GetShape m) axes)
        (GetOffset m))
  /\ length (squeezed_per_axis (GetShape m) axes) =
     (length axes * (length (GetShape m) - 1))%nat.
Proof.
  intros Hr Hne Hall. split.
  - rewrite NextSqueeze_unfold. destruct axes as [|a axes]; [done|].
    now rewrite (squeeze_axes_loop_ok m Hr (a :: axes) [] Hall).
  - clear Hne. induction Hall as [|a axes Ha Hall IH]; [done|].
    unfold squeezed_per_axis in *. cbn [flat_map length].
    rewrite length_app, IH, length_delete.
    + pose proof (lookup_lt_Some _ _ _ Ha). lia.
    + unfold squeezable in Ha. rewrite Ha. eauto.
Qed.

Lemma NextSqueeze_listed_axes_witness :
  NextSqueeze (TensorMetadata_of_shape [1; 3; 1; 4] 0) [0; 2] =
  Ok (TensorMetadata_of_shape
        (squeezed_per_axis
           (GetShape (TensorMetadata_of_shape [1; 3; 1; 4] 0)) [0; 2])
        (GetOffset (TensorMetadata_of_shape [1; 3; 1; 4] 0)))
  /\ length (squeezed_per_axis
               (GetShape (TensorMetadata_of_shape [1; 3; 1; 4] 0)) [0; 2])
     = (2 * (4 - 1))%nat.
Proof.
  apply (NextSqueeze_listed_axes
           (TensorMetadata_of_shape [1; 3; 1; 4] 0) [0; 2]).
  - reflexivity.
  - discriminate.
  - repeat constructor.
Defined.

(** [NextSqueeze] throws at the first listed axis that cannot be
    squeezed, whatever axes follow it: with the message "Axis out of
    bounds." when that axis is at or beyond the rank, and with "Cannot
    squeeze axis that is not of size 1." when it is inside the rank and
    its extent is not 1. An axis that cannot be squeezed is in one of
    these two cases. *)
Theorem NextSqueeze_rejects
    (m : TensorMetadata) (good rest : list N) (axis : N) :
  GetRank m = N.of_nat (length (GetShape m)) ->
  Forall (squeezable (GetShape m)) good ->
  (GetRank m <= axis ->
   NextSqueeze m (good ++ axis :: rest) =
   Throw (invalid_argument "Axis out of bounds."))
  /\ (forall d : N, GetShape m !! N.to_nat axis = Some d -> d ≠ 1 ->
      NextSqueeze m (good ++ axis :: rest) =
      Throw (invalid_argument "Cannot squeeze axis that is not of size 1."))
  /\ (~ squeezable (GetShape m) axis ->
      GetRank m <= axis
      \/ exists d : N, GetShape m !! N.to_nat axis = Some d /\ d ≠ 1).
Proof.
  intros Hr Hall.
  assert (Hloop : forall e : exn,
             (forall acc, squeeze_axis_step m axis acc = Throw e) ->
             NextSqueeze m (good ++ axis :: rest) = Throw e).
  { intros e He. rewrite NextSqueeze_unfold.
    rewrite (squeeze_axes_loop_throw m Hr good rest axis e [] Hall He).
    now destruct good. }
  split; [|split].
  - intros Hc. apply Hloop. intros acc.
    now apply squeeze_axis_step_out_of_bounds.
  - intros d Hd Hne. apply Hloop. intros acc.
    now apply (squeeze_axis_step_not_unit m Hr axis d).
  - now apply not_squeezable_cases.
Qed.

Lemma NextSqueeze_rejects_witness :
  NextSqueeze (TensorMetadata_of_shape [1; 3] 0) [0; 7; 1] =
    Throw (invalid_argument "Axis out of bounds.")
  /\ NextSqueeze (TensorMetadata_of_shape [1; 3] 0) [0; 1; 7] =
     Throw (invalid_argument "Cannot squeeze axis that is not of size 1.").
Proof.
  split.
  - apply (proj1 (NextSqueeze_rejects
                    (TensorMetadata_of_shape [1; 3] 0) [0] [1] 7
                    eq_refl ltac:(repeat constructor))).
    vm_compute. discriminate.
  - apply (proj1 (proj2 (NextSqueeze_rejects
                           (TensorMetadata_of_shape [1; 3] 0) [0] [7] 1
                           eq_refl ltac:(repeat constructor))) 3).
    + reflexivity.
    + discriminate.
Defined.

(** ** Permute: outcomes, transposition, total size *)

Lemma vec_set_Ok_length (vec vec' : list N) (i x : N) :
  vec_set vec i x = Ok vec' -> length vec' = length vec.
Proof.
  unfold vec_set. destruct (decide _); [|done].
  intros H. injection H as <-. apply length_insert.
Qed.

Section PermuteOutcome.
Variables shape strides p : list N.
Hypothesis Hstrides : length strides = length shape.
Hypothesis Hlen : length p = length shape.

Lemma NextPermute_step_outcome (i : nat) (x : N) (st : list N * list N) :
  p !! i = Some x ->
  length (fst st) = length shape -> length (snd st) = length shape ->
  ((N.to_nat x < length shape)%nat
   /\ exists st', NextPermute_step shape strides p (N.of_nat i) st = Ok st'
                  /\ length (fst st') = length shape
                  /\ length (snd st') = length shape)
  \/ ((length shape <= N.to_nat x)%nat
      /\ NextPermute_step shape strides p (N.of_nat i) st = Undefined).
Proof.
  intros Hx H1 H2. destruct st as [newShape newStrides]. cbn in H1, H2.
  pose proof (lookup_lt_Some _ _ _ Hx) as Hi.
  unfold NextPermute_step. rewrite (vec_get_lookup _ _ _ Hx).
  cbn [mbind result_bind].
  destruct (decide (N.to_nat x < length shape)%nat) as [Hr|Hr].
  - left. split; [done|].
    rewrite (vec_get_total shape) by done. cbn [mbind result_bind].
    rewrite vec_set_insert by lia. cbn [mbind result_bind].
    rewrite (vec_get_total strides) by lia. cbn [mbind result_bind].
    rewrite vec_set_insert by lia. cbn [mbind result_bind].
    eexists. split; [reflexivity|]. cbn. now rewrite !length_insert.
  - right. split; [lia|].
    rewrite (vec_get_None shape x) by lia. reflexivity.
Qed.

Lemma NextPermute_loop_outcome (n : nat) :
  (n <= length p)%nat ->
  (exists st,
      for_range n (NextPermute_step shape strides p)
        (replicate (length shape) 0, replicate (length strides) 0) = Ok st
      /\ length (fst st) = length shape /\ length (snd st) = length shape
      /\ forall i x, (i < n)%nat -> p !! i = Some x ->
           (N.to_nat x < length shape)%nat)
  \/ for_range n (NextPermute_step shape strides p)
       (replicate (length shape) 0, replicate (length strides) 0) =
     Undefined.
Proof.
  induction n as [|n IH]; intros Hn.
  - left. eexists. split; [reflexivity|]. cbn.
    rewrite !length_replicate. repeat split; try done. intros; lia.
  - rewrite for_range_snoc.
    destruct IH as [(st & -> & H1 & H2 & Hall)| ->]; [lia| |now right].
    cbn [mbind result_bind].
    destruct (lookup_lt_is_Some_2 p n ltac:(lia)) as [x Hx].
    destruct (NextPermute_step_outcome n x st Hx H1 H2)
      as [(Hr & st' & -> & H1' & H2')|(Hr & ->)]; [|now right].
    left. exists st'. repeat split; try done.
    intros i y Hi Hy. destruct (decide (i = n)) as [->|Hne].
    + congruence.
    + apply (Hall i); [lia|done].
Qed.
End PermuteOutcome.

(** The three outcomes of [NextPermute] on a non-empty permutation
    vector, for a metadata with as many strides as extents: a vector of
    another length than the rank is refused with
    [std::invalid_argument]; a vector of the right length whose entries
    are all below the rank is accepted, repeated entries included, and
    the result reads the shape and the strides at the listed positions;
    a vector of the right length with an entry at or above the rank
    makes the loop index the shape vector out of bounds. *)
Theorem NextPermute_outcomes (m : TensorMetadata) (p : list N) :
  well_formed m -> p ≠ [] ->
  (length p ≠ length (GetShape m) ->
   NextPermute m p =
   Throw (invalid_argument
     "Permutation vector must have the same number of elements as the tensor's rank."))
  /\ (length p = length (GetShape m) ->
      (forall x, x ∈ p -> (N.to_nat x < length (GetShape m))%nat) ->
      NextPermute m p =
      Ok (TensorMetadata_of_strides (gather (GetShape m) p)
            (gather (GetStrides m) p) (GetOffset m)))
  /\ (length p = length (GetShape m) ->
      (exists x, x ∈ p /\ (length (GetShape m) <= N.to_nat x)%nat) ->
      NextPermute m p = Undefined).
Proof.
  intros Hwf Hne. split; [|split].
  - intros Hl. unfold NextPermute. cbv zeta.
    destruct p as [|x p']; [done|]. now rewrite decide_True.
  - intros Hl Hr. now apply NextPermute_gather.
  - intros Hl (x & Hx & Hbad). destruct Hwf as [Hs _ _ _].
    unfold NextPermute. cbv zeta. destruct p as [|y p']; [done|].
    rewrite decide_False by (intros H; now apply H).
    destruct (NextPermute_loop_outcome (GetShape m) (GetStrides m)
                (y :: p') Hs Hl (length (y :: p')) ltac:(lia))
      as [(st & _ & _ & _ & Hall)| ->]; [|done].
    exfalso. apply list_elem_of_lookup in Hx as [i Hi].
    pose proof (lookup_lt_Some _ _ _ Hi).
    specialize (Hall i x ltac:(lia) Hi). lia.
Qed.

Lemma NextPermute_outcomes_witness :
  NextPermute (TensorMetadata_of_shape [2; 3] 0) [0] =
  Throw (invalid_argument
    "Permutation vector must have the same number of elements as the tensor's rank.")
  /\ NextPermute (TensorMetadata_of_shape [2; 3] 0) [1; 1] =
     Ok (TensorMetadata_of_strides
           (gather (GetShape (TensorMetadata_of_shape [2; 3] 0)) [1; 1])
           (gather (GetStrides (TensorMetadata_of_shape [2; 3] 0)) [1; 1])
           (GetOffset (TensorMetadata_of_shape [2; 3] 0)))
  /\ NextPermute (TensorMetadata_of_shape [2; 3] 0) [1; 2] = Undefined.
Proof.
  assert (Hwf : well_formed (TensorMetadata_of_shape [2; 3] 0))
    by (apply well_formed_of_shape; reflexivity).
  split; [|split].
  - apply (proj1 (NextPermute_outcomes _ [0] Hwf ltac:(discriminate))).
    discriminate.
  - apply (proj1 (proj2 (NextPermute_outcomes _ [1; 1] Hwf
                           ltac:(discriminate))) eq_refl).
    intros x Hx. apply elem_of_cons in Hx as [->|Hx]; [simpl; lia|].
    apply elem_of_cons in Hx as [->|Hx]; [simpl; lia|].
    now apply not_elem_of_nil in Hx.
  - apply (proj2 (proj2 (NextPermute_outcomes _ [1; 2] Hwf
                           ltac:(discriminate))) eq_refl).
    exists 2. split; [right; left|simpl; lia].
Defined.

(** Transposing twice gives back the shape, the strides and the offset
    of a well-formed metadata of rank at least 1. *)
Theorem NextTranspose_involutive (m : TensorMetadata) :
  well_formed m -> GetShape m ≠ [] ->
  (m1 ← NextTranspose m; NextTranspose m1) =
  Ok (TensorMetadata_of_strides (GetShape m) (GetStrides m) (GetOffset m)).
Proof.
  intros Hwf Hne. unfold NextTranspose.
  rewrite NextPermute_default_rev by done. cbn [mbind result_bind].
  destruct Hwf as [Hs Hr Ht Hb].
  rewrite NextPermute_default_rev.
  - cbn. unfold GetShape, GetStrides, GetOffset. cbn.
    now rewrite !rev_involutive.
  - apply well_formed_of_strides; rewrite !length_rev; done.
  - cbn. intros H. apply Hne. apply (f_equal (@rev N)) in H.
    now rewrite rev_involutive in H.
Qed.

Lemma NextTranspose_involutive_witness :
  (m1 ← NextTranspose (TensorMetadata_of_shape [2; 3; 4] 1);
   NextTranspose m1) =
  Ok (TensorMetadata_of_strides [2; 3; 4] [12; 4; 1] 1).
Proof.
  apply (NextTranspose_involutive (TensorMetadata_of_shape [2; 3; 4] 1)).
  - apply well_formed_of_shape. reflexivity.
  - discriminate.
Defined.

Lemma product_Permutation (l1 l2 : list N) :
  l1 ≡ₚ l2 -> product l1 = product l2.
Proof.
  induction 1 as [|x l1 l2 _ IH|x y l|l1 l2 l3 _ IH1 _ IH2].
  - done.
  - now rewrite !product_cons, IH.
  - rewrite !product_cons. lia.
  - congruence.
Qed.

Lemma valid_permutation_Permutation (r : nat) (p : list N) :
  valid_permutation r p -> p ≡ₚ N.of_nat <$> seq 0 r.
Proof.
  intros (Hlen & Hnd & Hall).
  apply submseteq_length_Permutation.
  - apply NoDup_submseteq; [done|]. intros x Hx.
    rewrite Forall_forall in Hall. specialize (Hall x Hx).
    apply list_elem_of_fmap. exists (N.to_nat x). split; [lia|].
    apply elem_of_seq. lia.
  - rewrite length_fmap, length_seq. lia.
Qed.

Lemma gather_Permutation (src p : list N) :
  valid_permutation (length src) p -> gather src p ≡ₚ src.
Proof.
  intros Hv. rewrite <- (gather_identity src) at 2.
  unfold gather. change (map ?f ?l) with (f <$> l).
  now rewrite (valid_permutation_Permutation _ _ Hv).
Qed.

(** Permuting the axes (by a valid permutation, or by the default
    reversal) rearranges the extents without changing them: the result
    has the same rank and the same total size as the source. *)
Theorem NextPermute_keeps_total_size (m : TensorMetadata) (p : list N) :
  well_formed m -> GetShape m ≠ [] ->
  p = [] \/ valid_permutation (length (GetShape m)) p ->
  exists m' : TensorMetadata,
    NextPermute m p = Ok m'
    /\ GetShape m' ≡ₚ GetShape m
    /\ GetRank m' = GetRank m
    /\ GetTotalSize m' = GetTotalSize m.
Proof.
  intros Hwf Hne Hp. pose proof Hwf as [Hs Hr Ht Hb].
  assert (Hkeep : forall shape' : list N,
             shape' ≡ₚ GetShape m ->
             N.of_nat (length shape') = GetRank m
             /\ ComputeSize shape' = GetTotalSize m).
  { intros shape' Hperm. rewrite Hr, Ht, !ComputeSize_product.
    rewrite (product_Permutation _ _ Hperm).
    now rewrite (Permutation_length Hperm). }
  destruct Hp as [->|Hv].
  - eexists. split; [now apply NextPermute_default_rev|].
    assert (Hperm : rev (GetShape m) ≡ₚ GetShape m)
      by (symmetry; apply Permutation_rev).
    split; [exact Hperm|]. exact (Hkeep _ Hperm).
  - pose proof Hv as (Hlen & _ & Hall).
    eexists. split.
    + apply NextPermute_gather; [done| |done|].
      * intros ->. apply Hne, length_zero_iff_nil. now rewrite <- Hlen.
      * intros x Hx. rewrite Forall_forall in Hall.
        specialize (Hall x Hx). lia.
    + pose proof (gather_Permutation _ _ Hv) as Hperm.
      split; [exact Hperm|]. exact (Hkeep _ Hperm).
Qed.

Lemma NextPermute_keeps_total_size_witness :
  exists m' : TensorMetadata,
    NextPermute (TensorMetadata_of_shape [2; 3; 4] 0) [2; 0; 1] = Ok m'
    /\ GetShape m' ≡ₚ GetShape (TensorMetadata_of_shape [2; 3; 4] 0)
    /\ GetRank m' = GetRank (TensorMetadata_of_shape [2; 3; 4] 0)
    /\ GetTotalSize m' = GetTotalSize (TensorMetadata_of_shape [2; 3; 4] 0).
Proof.
  apply (NextPermute_keeps_total_size
           (TensorMetadata_of_shape [2; 3; 4] 0) [2; 0; 1]).
  - apply well_formed_of_shape. reflexivity.
  - discriminate.
  - right. split; [reflexivity|]. split; [|repeat constructor].
    apply (bool_decide_unpack _). vm_compute. exact I.
Defined.

(** ** What every view transformation keeps *)

Lemma for_each_invariant {A S : Type} (P : S -> Prop) (xs : list A)
    (body : A -> S -> result S) :
  (forall x t t', P t -> body x t = Ok t' -> P t') ->
  forall s s', P s -> for_each xs body s = Ok s' -> P s'.
Proof.
  intros Hstep. induction xs as [|x xs IH]; intros s s' Hs H.
  - cbn in H. now injection H as <-.
  - cbn [for_each] in H. apply bind_Ok in H as (t & Ht & H).
    apply (IH t); [|done]. now apply (Hstep x s).
Qed.

Lemma NextReverse_loop_length (fuel : nat) :
  forall (vec vec' : list N) (left right : N),
    NextReverse_loop fuel vec left right = Ok vec' ->
    length vec' = length vec.
Proof.
  induction fuel as [|fuel IH]; intros vec vec' left right H;
    cbn [NextReverse_loop] in H;
    destruct (left <? right); try done;
    try (now injection H as <-).
  apply bind_Ok in H as (a & _ & H). apply bind_Ok in H as (b & _ & H).
  apply bind_Ok in H as (v1 & H1 & H). apply bind_Ok in H as (v2 & H2 & H).
  apply IH in H. apply vec_set_Ok_length in H1, H2. congruence.
Qed.

Lemma NextPermute_step_lengths (shape strides p : list N) (a b : nat)
    (i : N) (st st' : list N * list N) :
  length (fst st) = a /\ length (snd st) = b ->
  NextPermute_step shape strides p i st = Ok st' ->
  length (fst st') = a /\ length (snd st') = b.
Proof.
  intros [H1 H2] H. destruct st as [newShape newStrides].
  unfold NextPermute_step in H.
  apply bind_Ok in H as (newIndex & _ & H).
  apply bind_Ok in H as (x & _ & H).
  apply bind_Ok in H as (ns & Hns & H).
  apply bind_Ok in H as (y & _ & H).
  apply bind_Ok in H as (nt & Hnt & H).
  injection H as <-. cbn in *.
  apply vec_set_Ok_length in Hns, Hnt. split; congruence.
Qed.

(** Every result of a view transformation is built by a constructor at
    the source's offset; when the strides are passed on, they are as
    many as the source's strides and the shape has the source's rank. *)
Lemma apply_view_result (op : view_op) (m m' : TensorMetadata) :
  apply_view op m = Ok m' ->
  (exists shape, m' = TensorMetadata_of_shape shape (GetOffset m))
  \/ (exists shape stride,
        m' = TensorMetadata_of_strides shape stride (GetOffset m)
        /\ length shape = length (GetShape m)
        /\ length stride = length (GetStrides m)).
Proof.
  assert (Hrev : NextPermute m [] = Ok m' ->
    exists shape stride,
      m' = TensorMetadata_of_strides shape stride (GetOffset m)
      /\ length shape = length (GetShape m)
      /\ length stride = length (GetStrides m)).
  { unfold NextPermute. cbv zeta. intros H.
    apply bind_Ok in H as (s1 & H1 & H).
    apply bind_Ok in H as (s2 & H2 & H). injection H as <-.
    exists s1, s2. split; [done|].
    split; eapply NextReverse_loop_length; eassumption. }
  destruct op as [s e|newShape|p| |axes|axes]; cbn [apply_view].
  - unfold NextSlice. destruct (decide _); [done|].
    intros H. apply bind_Ok in H as (st & _ & H).
    injection H as <-. left. eauto.
  - rewrite NextReshape_cases. destruct (decide _); [done|].
    intros H. injection H as <-. left. eauto.
  - destruct p as [|x p]; [intros H; right; now apply Hrev|].
    unfold NextPermute. cbv zeta.
    destruct (decide _) as [|Hl]; [done|].
    intros H. apply bind_Ok in H as (st & Hst & H).
    injection H as <-. right. exists (fst st), (snd st).
    split; [done|].
    apply (for_each_invariant
             (fun st => length (fst st) = length (GetShape m)
                        /\ length (snd st) = length (GetStrides m))
             _ _ (NextPermute_step_lengths _ _ _ _ _) _ _) in Hst; [done|].
    cbn. now rewrite !length_replicate.
  - intros H. right. now apply Hrev.
  - rewrite NextSqueeze_unfold. destruct axes as [|a axes];
      intros H; apply bind_Ok in H as (st & _ & H);
      injection H as <-; left; eauto.
  - rewrite NextUnsqueeze_unfold.
    intros H. apply bind_Ok in H as (st & _ & H).
    injection H as <-. left. eauto.
Qed.

(** The invariants of the metadata survive every view transformation:
    whatever a slice, reshape, permute, transpose, squeeze or unsqueeze
    returns has as many strides as extents, its rank is the length of
    its shape and its total size is [ComputeSize] of its shape. *)
Theorem apply_view_consistent (op : view_op) (m m' : TensorMetadata) :
  consistent m -> apply_view op m = Ok m' -> consistent m'.
Proof.
  intros (Hs & _ & _) H.
  apply apply_view_result in H
    as [(shape & ->)|(shape & stride & -> & H1 & H2)].
  - split; [apply ComputeStrides_length|done].
  - split; [|done]. cbn. unfold GetStrides, GetShape in *. congruence.
Qed.

Lemma apply_view_consistent_witness :
  consistent (TensorMetadata_of_strides [4; 3; 2] [1; 4; 12] 0).
Proof.
  apply (apply_view_consistent Transpose
           (TensorMetadata_of_shape [2; 3; 4] 0)).
  - split; [reflexivity|split; reflexivity].
  - reflexivity.
Defined.

(** Reshape, permute, transpose, squeeze and unsqueeze never move the
    view: the result has the offset of the source. *)
Theorem apply_view_keeps_offset (op : view_op) (m m' : TensorMetadata) :
  (forall startIndices endIndices, op ≠ Slice startIndices endIndices) ->
  apply_view op m = Ok m' -> GetOffset m' = GetOffset m.
Proof.
  intros _ H.
  apply apply_view_result in H
    as [(shape & ->)|(shape & stride & -> & _)]; done.
Qed.

Lemma apply_view_keeps_offset_witness :
  GetOffset (TensorMetadata_of_shape [6; 4] 7) =
  GetOffset (TensorMetadata_of_shape [2; 3; 4] 7).
Proof.
  apply (apply_view_keeps_offset (Reshape [6; 4])
           (TensorMetadata_of_shape [2; 3; 4] 7)).
  - discriminate.
  - reflexivity.
Defined.

(** ** Zero extents *)

Lemma product_zero (shape : list N) : 0 ∈ shape -> product shape = 0.
Proof.
  induction shape as [|d shape IH]; intros Hin;
    [now apply not_elem_of_nil in Hin|].
  rewrite product_cons. apply elem_of_cons in Hin as [<-|Hin]; [done|].
  rewrite IH by done. lia.
Qed.

Lemma product_zero_inv (shape : list N) : product shape = 0 -> 0 ∈ shape.
Proof.
  induction shape as [|d shape IH]; intros H.
  - now rewrite product_nil in H.
  - rewrite product_cons in H. apply N.eq_mul_0 in H as [->|H].
    + left.
    + right. now apply IH.
Qed.

(** A shape with an extent 0 has total size 0; conversely, when the
    element count fits [size_t], a total size 0 means some extent is 0
    (with overflow the product can wrap to 0 without one). *)
Theorem ComputeSize_zero_extent (shape : list N) :
  (0 ∈ shape -> ComputeSize shape = 0)
  /\ (product shape < SIZE_MODULUS -> ComputeSize shape = 0 -> 0 ∈ shape).
Proof.
  rewrite ComputeSize_product. split.
  - intros Hin. now rewrite product_zero.
  - intros Hb H. rewrite wrap_small in H by done.
    now apply product_zero_inv.
Qed.

Lemma ComputeSize_zero_extent_witness :
  ComputeSize [2; 0; 3] = 0.
Proof.
  apply (proj1 (ComputeSize_zero_extent [2; 0; 3])). right. left.
Defined.

(** ** Views address the same elements *)

Lemma wrap_add_l (a b : N) : wrap (wrap a + b) = wrap (a + b).
Proof. unfold wrap. now rewrite N.Div0.add_mod_idemp_l. Qed.

Lemma FlattenIndex_loop_wrap (strides : list N) :
  forall (indices : list N) (acc : N),
    length indices = length strides -> acc < SIZE_MODULUS ->
    for_range (length strides) (FlattenIndex_step strides indices) acc =
    Ok (wrap (acc + dot indices strides)).
Proof.
  induction strides as [|s strides IH]; intros indices acc Hlen Hacc.
  - destruct indices; [|done]. cbn.
    now rewrite N.add_0_r, wrap_small.
  - destruct indices as [|x indices]; [done|].
    rewrite FlattenIndex_loop_cons.
    rewrite IH; [|now injection Hlen|apply wrap_lt].
    cbn [dot]. unfold size_add, size_mul. rewrite wrap_add_l.
    replace (acc + wrap (x * s) + dot indices strides)
      with (wrap (x * s) + (acc + dot indices strides)) by lia.
    rewrite wrap_add_l. do 2 f_equal. lia.
Qed.

(** In general [FlattenIndex] is the dot product modulo [2^64]. *)
Lemma FlattenIndex_wrap_dot (strides indices : list N) :
  length indices = length strides ->
  FlattenIndex strides indices = Ok (wrap (dot indices strides)).
Proof.
  intros Hlen. unfold FlattenIndex.
  now rewrite FlattenIndex_loop_wrap by done.
Qed.

Lemma dot_app (a1 a2 b1 b2 : list N) :
  length a1 = length b1 ->
  dot (a1 ++ a2) (b1 ++ b2) = dot a1 b1 + dot a2 b2.
Proof.
  revert b1. induction a1 as [|x a1 IH]; intros [|y b1] Hlen; try done.
  cbn [app dot]. rewrite IH by (now injection Hlen). lia.
Qed.

Lemma dot_rev (a b : list N) :
  length a = length b -> dot (rev a) (rev b) = dot a b.
Proof.
  revert b. induction a as [|x a IH]; intros [|y b] Hlen; try done.
  cbn [rev]. rewrite dot_app by (rewrite !length_rev; now injection Hlen).
  rewrite IH by (now injection Hlen). cbn [dot]. lia.
Qed.

Lemma dot_gather (a b p : list N) :
  dot (gather a p) (gather b p) =
  fold_right N.add 0
    ((fun j => a !!! N.to_nat j * b !!! N.to_nat j) <$> p).
Proof.
  induction p as [|j p IH]; [done|].
  cbn [gather map dot fmap list_fmap fold_right].
  fold (gather a p). fold (gather b p). now rewrite IH.
Qed.

Lemma sum_Permutation (l1 l2 : list N) :
  l1 ≡ₚ l2 -> fold_right N.add 0 l1 = fold_right N.add 0 l2.
Proof.
  induction 1 as [|x l1 l2 _ IH|x y l|l1 l2 l3 _ IH1 _ IH2]; cbn;
    [done|now rewrite IH|lia|congruence].
Qed.

(** Gathering the index and the strides by the same permutation leaves
    the dot product unchanged. *)
Lemma dot_gather_permutation (a b p : list N) :
  length a = length b -> valid_permutation (length a) p ->
  dot (gather a p) (gather b p) = dot a b.
Proof.
  intros Hlen Hv.
  rewrite dot_gather.
  rewrite (sum_Permutation _ _
             (fmap_Permutation _ _ _
                (valid_permutation_Permutation _ _ Hv))).
  rewrite <- dot_gather.
  change (N.of_nat <$> seq 0 (length a))
    with (map N.of_nat (seq 0 (length a))).
  rewrite gather_identity. rewrite Hlen. now rewrite gather_identity.
Qed.

(** A permuted view addresses the same elements as its source: the
    multi-index rearranged by the permutation, flattened under the
    strides of the permuted view, gives the flat offset of the original
    multi-index under the source's strides; the same holds for the
    reversed multi-index under the transposed view. *)
Theorem NextPermute_same_element
    (m : TensorMetadata) (p idx : list N) :
  well_formed m -> GetShape m ≠ [] ->
  length idx = length (GetShape m) ->
  (valid_permutation (length (GetShape m)) p ->
   exists m' : TensorMetadata,
     NextPermute m p = Ok m'
     /\ FlattenIndex (GetStrides m') (gather idx p) =
        FlattenIndex (GetStrides m) idx)
  /\ (exists m' : TensorMetadata,
        NextTranspose m = Ok m'
        /\ FlattenIndex (GetStrides m') (rev idx) =
           FlattenIndex (GetStrides m) idx).
Proof.
  intros Hwf Hne Hidx. pose proof Hwf as [Hs _ _ _]. split.
  - intros Hv. pose proof Hv as (Hlen & _ & Hall).
    eexists. split.
    + apply NextPermute_gather; [done| |done|].
      * intros ->. apply Hne, length_zero_iff_nil. now rewrite <- Hlen.
      * intros x Hx. rewrite Forall_forall in Hall.
        specialize (Hall x Hx). lia.
    + change (GetStrides (TensorMetadata_of_strides ?a ?b ?c)) with b.
      rewrite !FlattenIndex_wrap_dot
        by (rewrite ?gather_length; congruence).
      rewrite dot_gather_permutation; [done|congruence|].
      now rewrite Hidx.
  - eexists. split.
    + unfold NextTranspose. now apply NextPermute_default_rev.
    + change (GetStrides (TensorMetadata_of_strides ?a ?b ?c)) with b.
      rewrite !FlattenIndex_wrap_dot
        by (rewrite ?length_rev; congruence).
      now rewrite dot_rev by congruence.
Qed.

Lemma NextPermute_same_element_witness :
  (exists m' : TensorMetadata,
     NextPermute (TensorMetadata_of_shape [2; 3; 4] 0) [2; 0; 1] = Ok m'
     /\ FlattenIndex (GetStrides m') (gather [1; 2; 3] [2; 0; 1]) =
        FlattenIndex (GetStrides (TensorMetadata_of_shape [2; 3; 4] 0))
          [1; 2; 3])
  /\ (exists m' : TensorMetadata,
        NextTranspose (TensorMetadata_of_shape [2; 3; 4] 0) = Ok m'
        /\ FlattenIndex (GetStrides m') (rev [1; 2; 3]) =
           FlattenIndex (GetStrides (TensorMetadata_of_shape [2; 3; 4] 0))
             [1; 2; 3]).
Proof.
  destruct (NextPermute_same_element
              (TensorMetadata_of_shape [2; 3; 4] 0) [2; 0; 1] [1; 2; 3])
    as [H1 H2].
  - apply well_formed_of_shape. reflexivity.
  - discriminate.
  - reflexivity.
  - split; [|exact H2]. apply H1.
    split; [reflexivity|]. split; [|repeat constructor].
    apply (bool_decide_unpack _). vm_compute. exact I.
Defined.

Lemma ComputeStrides_insert_unit (shape : list N) :
  forall n : nat,
    (n <= length shape)%nat ->
    ComputeStrides (take n shape ++ 1 :: drop n shape) =
    take n (ComputeStrides shape)
    ++ wrap (product (drop n shape)) :: drop n (ComputeStrides shape).
Proof.
  induction shape as [|d rest IH]; intros n Hn.
  - assert (n = 0%nat) as -> by (simpl in Hn; lia). reflexivity.
  - destruct n as [|n].
    + cbn [take drop app]. now rewrite ComputeStrides_cons.
    + cbn [take drop app]. rewrite !ComputeStrides_cons.
      cbn [take drop app]. rewrite IH by (simpl in Hn; lia).
      f_equal. f_equal.
      rewrite product_app, product_cons, N.mul_1_l, <- product_app.
      now rewrite take_drop.
Qed.

(** On a metadata with canonical strides, unsqueezing at one position
    keeps the stride of every existing axis and gives the new axis the
    stride of the block to its right; with index 0 on the new axis the
    view addresses the same elements as the source. *)
Theorem NextUnsqueeze_keeps_strides
    (m : TensorMetadata) (axis : N) (idx : list N) :
  canonical_strides m ->
  axis <= N.of_nat (length (GetShape m)) ->
  length idx = length (GetShape m) ->
  exists m' : TensorMetadata,
    NextUnsqueeze m [axis] = Ok m'
    /\ GetStrides m' =
       vec_insert (GetStrides m) axis
         (wrap (product (drop (N.to_nat axis) (GetShape m))))
    /\ FlattenIndex (GetStrides m') (vec_insert idx axis 0) =
       FlattenIndex (GetStrides m) idx.
Proof.
  intros Hc Ha Hidx.
  assert (Hst : ComputeStrides (vec_insert (GetShape m) axis 1) =
                vec_insert (GetStrides m) axis
                  (wrap (product (drop (N.to_nat axis) (GetShape m))))).
  { unfold vec_insert. rewrite Hc. apply ComputeStrides_insert_unit. lia. }
  exists (TensorMetadata_of_shape (vec_insert (GetShape m) axis 1)
            (GetOffset m)).
  split; [|split; [exact Hst|]].
  - rewrite NextUnsqueeze_unfold. cbn [for_each]. unfold unsqueeze_step.
    now replace (N.of_nat (length (GetShape m)) <? axis) with false
      by (symmetry; apply N.ltb_ge; lia).
  - change (GetStrides (TensorMetadata_of_shape ?s ?o))
      with (ComputeStrides s).
    rewrite Hst.
    assert (Hl : length (GetStrides m) = length (GetShape m))
      by (rewrite Hc; apply ComputeStrides_length).
    rewrite !FlattenIndex_wrap_dot
      by (rewrite ?vec_insert_length; congruence).
    unfold vec_insert.
    rewrite dot_app by (rewrite !length_take; lia).
    cbn [dot]. rewrite N.mul_0_l, N.add_0_l.
    rewrite <- dot_app by (rewrite !length_take; lia).
    now rewrite !take_drop.
Qed.

Lemma NextUnsqueeze_keeps_strides_witness :
  exists m' : TensorMetadata,
    NextUnsqueeze (TensorMetadata_of_shape [3; 4] 0) [1] = Ok m'
    /\ GetStrides m' =
       vec_insert (GetStrides (TensorMetadata_of_shape [3; 4] 0)) 1
         (wrap (product
                  (drop (N.to_nat 1)
                     (GetShape (TensorMetadata_of_shape [3; 4] 0)))))
    /\ FlattenIndex (GetStrides m') (vec_insert [2; 3] 1 0) =
       FlattenIndex (GetStrides (TensorMetadata_of_shape [3; 4] 0)) [2; 3].
Proof.
  apply (NextUnsqueeze_keeps_strides
           (TensorMetadata_of_shape [3; 4] 0) 1 [2; 3]).
  - reflexivity.
  - simpl. lia.
  - reflexivity.
Defined.

Lemma ComputeStrides_filter_units (shape : list N) :
  ComputeStrides (filter (fun d => d ≠ 1) shape) =
  retained_strides shape (ComputeStrides shape).
Proof.
  induction shape as [|d rest IH]; [done|].
  rewrite ComputeStrides_cons. cbn [retained_strides].
  destruct (decide (d = 1)) as [->|Hne].
  - now rewrite filter_cons_False by (intros H; now apply H).
  - rewrite filter_cons_True by done.
    now rewrite ComputeStrides_cons, product_filter_units, IH.
Qed.

(** On a metadata with canonical strides, squeezing without listed
    axes keeps the stride of every retained axis: the canonical strides
    of the squeezed shape are the source's strides at the axes whose
    extent is not 1. *)
Theorem NextSqueeze_all_keeps_strides (m : TensorMetadata) :
  canonical_strides m ->
  GetRank m = N.of_nat (length (GetShape m)) ->
  exists m' : TensorMetadata,
    NextSqueeze m [] = Ok m'
    /\ GetStrides m' = retained_strides (GetShape m) (GetStrides m).
Proof.
  intros Hc Hr. eexists. split; [now apply NextSqueeze_no_axes|].
  rewrite Hc. apply ComputeStrides_filter_units.
Qed.

Lemma NextSqueeze_all_keeps_strides_witness :
  exists m' : TensorMetadata,
    NextSqueeze (TensorMetadata_of_shape [1; 3; 1; 4] 0) [] = Ok m'
    /\ GetStrides m' =
       retained_strides
         (GetShape (TensorMetadata_of_shape [1; 3; 1; 4] 0))
         (GetStrides (TensorMetadata_of_shape [1; 3; 1; 4] 0)).
Proof.
  apply (NextSqueeze_all_keeps_strides
           (TensorMetadata_of_shape [1; 3; 1; 4] 0)).
  - reflexivity.
  - reflexivity.
Defined.
